(** * BroadcastGroup: a shallow embedding of [src/broadcast.ts]

    The group keeps an ordered registry of platform clients and fans
    [send] / [sendEmbed] / [testConnection] out to all of them, collecting
    one result per alias.  The embedding follows the TypeScript source
    method by method:

    - JavaScript strings are [string]s (UTF-8 bytes; the code only
      concatenates, compares, searches and lowercases them);
    - [this.clients] is a [list ClientEntry], mutated through a small
      state-and-exception monad [Method];
    - the [results] object literal filled by [results[alias] = ...] is a
      [JsObject]: a [gmap] of own properties plus the prototype slot that an
      assignment to [__proto__] changes;
    - a call into a client is an oracle returning a [CallOutcome]: it
      throws, or returns a promise that fulfills, rejects or stays pending;
    - the order in which the per-client promises settle is a parameter
      (a permutation of the registry indices).

    The Slack webhook client, one of the platform clients a group is made
    of, is embedded in [Module Slack] further down. *)

From Stdlib Require Import DecimalString.
From Stdlib Require DecimalNat HexadecimalString HexadecimalPos.
From stdpp Require Import gmap strings list fin_maps.

Local Open Scope string_scope.
Local Open Scope list_scope.
Local Open Scope stdpp_scope.

(** ** JavaScript strings *)

Module JsString.

(** [s.startsWith(pat)] *)
Fixpoint startsWith (pat s : string) : bool :=
  match pat, s with
  | EmptyString, _ => true
  | String _ _, EmptyString => false
  | String p pat', String c s' => Ascii.eqb p c && startsWith pat' s'
  end.

(** [s.slice(n)] *)
Fixpoint slice (n : nat) (s : string) : string :=
  match n, s with
  | O, _ => s
  | S _, EmptyString => EmptyString
  | S n', String _ s' => slice n' s'
  end.

(** [s.includes(pat)] *)
Fixpoint includes (pat s : string) : bool :=
  startsWith pat s
  || match s with
     | EmptyString => false
     | String _ s' => includes pat s'
     end.

(** [s.endsWith(pat)] *)
Fixpoint endsWith (pat s : string) : bool :=
  String.eqb pat s
  || match s with
     | EmptyString => false
     | String _ s' => endsWith pat s'
     end.

(** [s.replace(pat, rep)] with a string pattern: only the first
    (leftmost) occurrence of [pat] is replaced.  ([rep] is taken
    literally; the source only ever passes the empty replacement.) *)
Fixpoint replace (pat rep s : string) : string :=
  if startsWith pat s then rep +:+ slice (String.length pat) s
  else match s with
       | EmptyString => EmptyString
       | String c s' => String c (replace pat rep s')
       end.

Definition lowerChar (c : Ascii.ascii) : Ascii.ascii :=
  let n := Ascii.nat_of_ascii c in
  if (65 <=? n)%nat && (n <=? 90)%nat then Ascii.ascii_of_nat (n + 32) else c.

(** [s.toLowerCase()], on the ASCII letters; other bytes are kept. *)
Fixpoint toLowerCase (s : string) : string :=
  match s with
  | EmptyString => EmptyString
  | String c s' => String (lowerChar c) (toLowerCase s')
  end.

(** The line feed written ["\n"] in the source. *)
Definition newline : string := String (Ascii.ascii_of_nat 10) EmptyString.

(** [`${n}`] for a non-negative integer: its decimal digits. *)
Definition ofNat (n : nat) : string := NilEmpty.string_of_uint (Nat.to_uint n).

End JsString.

(** ** Errors ([src/utils/errors.ts] and the built-in [Error]) *)

Inductive ErrorClass :=
| ErrorBase
| TypeErrorClass
| notiflyErrorClass
| ConfigurationErrorClass
| MessageSendErrorClass.

Global Instance ErrorClass_eq_dec : EqDecision ErrorClass.
Proof. solve_decision. Defined.

Record JsError := {
  errorClass : ErrorClass;
  errorName : string;
  errorMessage : string;
  errorCode : option string;
}.

(** [new Error(message)] *)
Definition newError (message : string) : JsError :=
  {| errorClass := ErrorBase; errorName := "Error";
     errorMessage := message; errorCode := None |}.

(** [new TypeError(message)], raised by the runtime itself. *)
Definition newTypeError (message : string) : JsError :=
  {| errorClass := TypeErrorClass; errorName := "TypeError";
     errorMessage := message; errorCode := None |}.

(** [new notiflyError(message, code)] *)
Definition new_notiflyError (message code : string) : JsError :=
  {| errorClass := notiflyErrorClass; errorName := "notiflyError";
     errorMessage := message; errorCode := Some code |}.

(** [new ConfigurationError(message)] *)
Definition newConfigurationError (message : string) : JsError :=
  {| errorClass := ConfigurationErrorClass; errorName := "ConfigurationError";
     errorMessage := message; errorCode := Some "CONFIGURATION_ERROR" |}.

(** [new MessageSendError(platform, originalError)]; the second argument
    is [originalError?.message] already rendered by the template. *)
Definition newMessageSendError (platform originalMessage : string) : JsError :=
  {| errorClass := MessageSendErrorClass; errorName := "MessageSendError";
     errorMessage := "Failed to send message via " +:+ platform +:+ ": " +:+ originalMessage;
     errorCode := Some "MESSAGE_SEND_ERROR" |}.

(** The [extends] chain. *)
Definition superClass (c : ErrorClass) : option ErrorClass :=
  match c with
  | ErrorBase => None
  | TypeErrorClass => Some ErrorBase
  | notiflyErrorClass => Some ErrorBase
  | ConfigurationErrorClass => Some notiflyErrorClass
  | MessageSendErrorClass => Some notiflyErrorClass
  end.

Definition subClassOf (c d : ErrorClass) : bool :=
  bool_decide (c = d)
  || match superClass c with
     | None => false
     | Some c1 =>
         bool_decide (c1 = d)
         || match superClass c1 with
            | None => false
            | Some c2 => bool_decide (c2 = d)
            end
     end.

(** [e instanceof C] *)
Definition instanceOf (e : JsError) (c : ErrorClass) : bool :=
  subClassOf (errorClass e) c.

(** ** Values crossing the group's interface *)

(** A value the group never inspects: a per-client response, or an object
    payload handed to [send]. *)
Inductive JsOpaque := OpaqueRef (id : nat).

(** What a [catch (err: any)] clause can receive. *)
Inductive Thrown :=
| ThrownNull
| ThrownUndefined
| ThrownError (e : JsError)            (* an [Error] instance *)
| ThrownOther (message : option string) (* any other value, with its [message] property if it has one *).

(** Completion of a synchronous piece of code. *)
Inductive Completion (A : Type) :=
| Normal (a : A)
| Throw (err : Thrown).
Arguments Normal {A} a.
Arguments Throw {A} err.

(** State of a promise once the event loop has run as far as it can. *)
Inductive Settlement (A : Type) :=
| Fulfilled (a : A)
| Rejected (reason : Thrown)
| Pending.
Arguments Fulfilled {A} a.
Arguments Rejected {A} reason.
Arguments Pending {A}.

(** What calling a client method does: throw before returning, or return
    a promise. *)
Inductive CallOutcome (A : Type) :=
| Threw (err : Thrown)
| Returned (p : Settlement A).
Arguments Threw {A} err.
Arguments Returned {A} p.

(** [err.message]: a property read, which itself throws on [null] and
    [undefined]. *)
Definition readMessage (err : Thrown) : Completion (option string) :=
  match err with
  | ThrownNull =>
      Throw (ThrownError (newTypeError "Cannot read properties of null (reading 'message')"))
  | ThrownUndefined =>
      Throw (ThrownError (newTypeError "Cannot read properties of undefined (reading 'message')"))
  | ThrownError e => Normal (Some (errorMessage e))
  | ThrownOther message => Normal message
  end.

(** [message: string | object] *)
Inductive Message :=
| MessageText (text : string)
| MessageObject (payload : JsOpaque).

(** Modelled from the spec: [EmbedOptions] is declared in
    [src/types/broadcast.ts], which is not among the sources.  The spec
    lists a title, a description and a color among its fields; the group
    reads only [title] and [description]. *)
Record EmbedOptions := {
  title : string;
  description : string;
  color : option Z;
}.

(** Modelled from the spec: [PlatformClient] is declared in
    [src/types/broadcast.ts], which is not among the sources.  A client
    exposes [send(message, options?)] and optionally [sendEmbed(embed)] and
    [testConnection()]; [constructorName] is [client.constructor.name].
    The optional methods are [None] when [typeof client.m !== "function"]. *)
Record PlatformClient := {
  constructorName : string;
  send : Message → option (gmap string JsOpaque) → CallOutcome JsOpaque;
  sendEmbed : option (EmbedOptions → CallOutcome JsOpaque);
  testConnection : option (CallOutcome bool);
}.

(** Anything a caller can pass where a client is expected. *)
Inductive JsValue :=
| JsUndefined
| JsNull
| JsBoolean (b : bool)
| JsNumber (n : Z)
| JsStringValue (s : string)
| JsObjectWithoutSend (typeName : string) (* an object whose [send] is missing or not a function *)
| JsClient (c : PlatformClient)           (* an object with a callable [send] *).

(** [!!v] *)
Definition truthy (v : JsValue) : bool :=
  match v with
  | JsUndefined | JsNull => false
  | JsBoolean b => b
  | JsNumber n => negb (n =? 0)%Z
  | JsStringValue s => negb (String.eqb s "")
  | JsObjectWithoutSend _ | JsClient _ => true
  end.

(** The client behind [v] when [typeof v.send === "function"]. *)
Definition callableSend (v : JsValue) : option PlatformClient :=
  match v with
  | JsClient c => Some c
  | _ => None
  end.

(** [a || b] on an optional string: [undefined] and [""] are falsy. *)
Definition orElse (a : option string) (b : string) : string :=
  match a with
  | Some s => if String.eqb s "" then b else s
  | None => b
  end.

(** ** The registry *)

Record ClientEntry := {
  client : PlatformClient;
  alias : string;
  platform : string;
}.

Record BroadcastGroup := {
  name : string;
  clients : list ClientEntry;
}.

(** A method of the group: it reads and updates [this] and completes
    normally or by throwing. *)
Definition Method (A : Type) : Type := BroadcastGroup → Completion A * BroadcastGroup.

Definition throw {A} (err : Thrown) : Method A := λ this, (Throw err, this).
Definition getClients : Method (list ClientEntry) := λ this, (Normal (clients this), this).
Definition setClients (cs : list ClientEntry) : Method unit :=
  λ this, (Normal tt, {| name := name this; clients := cs |}).

Global Instance Method_ret : MRet Method := λ A a this, (Normal a, this).
Global Instance Method_bind : MBind Method := λ A B k m this,
  match m this with
  | (Normal a, this') => k a this'
  | (Throw err, this') => (Throw err, this')
  end.

(** [client.constructor.name.replace("Client", "").toLowerCase()] *)
Definition platformOf (c : PlatformClient) : string :=
  JsString.toLowerCase (JsString.replace "Client" "" (constructorName c)).

(** [addClient(client, alias?)]; the returned [this] is the state. *)
Definition addClient (v : JsValue) (alias : option string) : Method unit :=
  match (if truthy v then callableSend v else None) with
  | None => throw (ThrownError (newError "Invalid client: must implement send()"))
  | Some c =>
      cs ← getClients;
      setClients (cs ++ [ {| client := c;
                             alias := orElse alias ("client_" +:+ JsString.ofNat (length cs + 1));
                             platform := platformOf c |} ])
  end.

(** [clients.findIndex(pred)]: the first index satisfying [pred], or -1. *)
Fixpoint findIndex {A} (pred : A → bool) (l : list A) : Z :=
  match l with
  | [] => -1
  | x :: l' => if pred x then 0 else
                 let i := findIndex pred l' in
                 if (0 <=? i)%Z then (i + 1)%Z else -1
  end.

(** [removeClient(alias)] *)
Definition removeClient (a : string) : Method bool :=
  cs ← getClients;
  let index := findIndex (λ c, String.eqb (alias c) a) cs in
  if (0 <=? index)%Z then
    setClients (delete (Z.to_nat index) cs);; mret true
  else mret false.

(** [size()] *)
Definition size_ (this : BroadcastGroup) : nat := length (clients this).

(** [listClients()] *)
Definition listClients (this : BroadcastGroup) : list (string * string) :=
  (λ e, (alias e, platform e)) <$> clients this.

(** [list.forEach(f)] for a callback that is a method call on [this]. *)
Fixpoint forEach {A} (f : A → Method unit) (l : list A) : Method unit :=
  match l with
  | [] => mret tt
  | x :: l' => f x;; forEach f l'
  end.

(** [new BroadcastGroup(name, clients = [])]: every initial client goes
    through [addClient] without an alias; an invalid one makes the
    constructor throw. *)
Definition newBroadcastGroup (name : string) (initial : list JsValue)
  : Completion BroadcastGroup :=
  match forEach (λ c, addClient c None) initial {| name := name; clients := [] |} with
  | (Normal _, this) => Normal this
  | (Throw err, _) => Throw err
  end.

(** ** Result shapes *)

(** Modelled from the spec: [BroadcastResult], [BroadcastSummary] and
    [TestConnectionResult] are declared in [src/types/broadcast.ts], which
    is not among the sources; the fields are those of the object literals
    the group builds.  An optional field is [None] when the literal leaves
    it out or stores [undefined]. *)
Module BroadcastResult.
Record t := {
  success : bool;
  platform : string;
  result : option JsOpaque;
  error : option string;
  note : option string;
}.
End BroadcastResult.

Module TestConnectionResult.
Record t := {
  platform : string;
  connected : bool;
  error : option string;
}.
End TestConnectionResult.

(** The object [const results = {}] after some assignments
    [results[k] = v].  An assignment creates or overwrites the own property
    [k], except for [k = "__proto__"]: that one runs the setter inherited
    from [Object.prototype], which swaps the prototype and creates no own
    property. *)
Record JsObject (V : Type) := {
  own : gmap string V;
  proto : option V;
}.
Arguments own {V} _.
Arguments proto {V} _.

Definition emptyObject {V} : JsObject V := {| own := ∅; proto := None |}.

(** [o[k] = v] *)
Definition assign {V} (o : JsObject V) (k : string) (v : V) : JsObject V :=
  if String.eqb k "__proto__"
  then {| own := own o; proto := Some v |}
  else {| own := <[k := v]> (own o); proto := proto o |}.

(** [o[k]], for the keys the group assigns (members inherited from
    [Object.prototype] are not modelled). *)
Definition get {V} (o : JsObject V) (k : string) : option V :=
  if String.eqb k "__proto__" then proto o else own o !! k.

Record BroadcastSummary := {
  groupName : string;
  totalClients : nat;
  results : JsObject BroadcastResult.t;
}.

(** ** Dispatch *)

(** A method call on a client. *)
Inductive Call :=
| CallSend (message : Message) (options : option (gmap string JsOpaque))
| CallSendEmbed (embed : EmbedOptions)
| CallTestConnection.

(** One run of the async arrow function mapped over [this.clients]: the
    client calls it makes, the assignment [results[alias] = v] it reaches
    (if any), and the state of the promise it returns. *)
Record Task (V : Type) := {
  calls : list Call;
  assignment : option (string * V);
  completion : Settlement unit;
}.
Arguments calls {V} _.
Arguments assignment {V} _.
Arguments completion {V} _.

(** The arrow function got to [results[alias] = v] and returned. *)
Definition assigns {V} (cs : list Call) (k : string) (v : V) : Task V :=
  {| calls := cs; assignment := Some (k, v); completion := Fulfilled tt |}.

(** The arrow function is suspended at an [await] that never resumes. *)
Definition suspended {V} (cs : list Call) : Task V :=
  {| calls := cs; assignment := None; completion := Pending |}.

(** [catch (err: any) { results[alias] = mk(err.message); }]: reading
    [err.message] may throw, which rejects the arrow function's promise
    before the assignment. *)
Definition catchClause {V} (cs : list Call) (k : string) (mk : option string → V)
    (err : Thrown) : Task V :=
  match readMessage err with
  | Normal message => assigns cs k (mk message)
  | Throw err' => {| calls := cs; assignment := None; completion := Rejected err' |}
  end.

(** What an async method of the group gives back: the client calls made
    while it ran, and the state of the promise it returned. *)
Record Async (A : Type) := {
  invocations : list (nat * Call);
  promise : Settlement A;
}.
Arguments invocations {A} _.
Arguments promise {A} _.

Definition isSettled {A} (p : Settlement A) : bool :=
  match p with
  | Pending => false
  | _ => true
  end.

(** [Promise.allSettled(promises)]: fulfills once every promise has
    settled, whatever the outcomes; it has no rejecting path. *)
Definition allSettled {A} (promises : list (Settlement A)) : Settlement (list (Settlement A)) :=
  if forallb isSettled promises then Fulfilled promises else Pending.

(** [await p; k] inside an async function. *)
Definition await {A B} (p : Settlement A) (k : A → Settlement B) : Settlement B :=
  match p with
  | Fulfilled a => k a
  | Rejected reason => Rejected reason
  | Pending => Pending
  end.

(** The [results] object after the tasks have run their assignments in
    the order [order] in which their awaited promises settled ([order]
    lists indices into [this.clients]). *)
Definition collect {V} (order : list nat) (tasks : list (Task V)) : JsObject V :=
  foldl (λ results i,
           match tasks !! i with
           | Some task =>
               match assignment task with
               | Some (k, v) => assign results k v
               | None => results
               end
           | None => results
           end) emptyObject order.

(** The calls made by [this.clients.map(async ...)], tagged with the
    index of the client they are made on. *)
Definition trace {V} (tasks : list (Task V)) : list (nat * Call) :=
  mjoin (imap (λ i task, pair i <$> calls task) tasks).

(** Body of the arrow function in [broadcast]. *)
Definition broadcastTask (message : Message) (options : gmap string JsOpaque)
    (e : ClientEntry) : Task BroadcastResult.t :=
  let invoked := [CallSend message (Some options)] in
  let failure message :=
    {| BroadcastResult.success := false; BroadcastResult.platform := platform e;
       BroadcastResult.result := None; BroadcastResult.error := message;
       BroadcastResult.note := None |} in
  match send (client e) message (Some options) with
  | Returned (Fulfilled result) =>
      assigns invoked (alias e)
        {| BroadcastResult.success := true; BroadcastResult.platform := platform e;
           BroadcastResult.result := Some result; BroadcastResult.error := None;
           BroadcastResult.note := None |}
  | Returned Pending => suspended invoked
  | Returned (Rejected err) => catchClause invoked (alias e) failure err
  | Threw err => catchClause invoked (alias e) failure err
  end.

(** [broadcast(message, options = {})] *)
Definition broadcast (message : Message) (options : option (gmap string JsOpaque))
    (order : list nat) (this : BroadcastGroup) : Async BroadcastSummary :=
  let options := default ∅ options in
  let tasks := broadcastTask message options <$> clients this in
  {| invocations := trace tasks;
     promise :=
       await (allSettled (completion <$> tasks)) (λ _,
         Fulfilled {| groupName := name this;
                      totalClients := length (clients this);
                      results := collect order tasks |}) |}.

(** Body of the arrow function in [broadcastEmbed]. *)
Definition broadcastEmbedTask (embed : EmbedOptions) (e : ClientEntry)
  : Task BroadcastResult.t :=
  let failure message :=
    {| BroadcastResult.success := false; BroadcastResult.platform := platform e;
       BroadcastResult.result := None; BroadcastResult.error := message;
       BroadcastResult.note := None |} in
  match sendEmbed (client e) with
  | Some sendEmbed =>
      let invoked := [CallSendEmbed embed] in
      match sendEmbed embed with
      | Returned (Fulfilled result) =>
          assigns invoked (alias e)
            {| BroadcastResult.success := true; BroadcastResult.platform := platform e;
               BroadcastResult.result := Some result; BroadcastResult.error := None;
               BroadcastResult.note := None |}
      | Returned Pending => suspended invoked
      | Returned (Rejected err) => catchClause invoked (alias e) failure err
      | Threw err => catchClause invoked (alias e) failure err
      end
  | None =>
      let msg := "**" +:+ title embed +:+ "**" +:+ JsString.newline +:+ description embed in
      let invoked := [CallSend (MessageText msg) None] in
      match send (client e) (MessageText msg) None with
      | Returned (Fulfilled result) =>
          assigns invoked (alias e)
            {| BroadcastResult.success := true; BroadcastResult.platform := platform e;
               BroadcastResult.result := Some result; BroadcastResult.error := None;
               BroadcastResult.note := Some "Embed not supported; sent as plain text." |}
      | Returned Pending => suspended invoked
      | Returned (Rejected err) => catchClause invoked (alias e) failure err
      | Threw err => catchClause invoked (alias e) failure err
      end
  end.

(** [broadcastEmbed(embed)] *)
Definition broadcastEmbed (embed : EmbedOptions) (order : list nat)
    (this : BroadcastGroup) : Async BroadcastSummary :=
  let tasks := broadcastEmbedTask embed <$> clients this in
  {| invocations := trace tasks;
     promise :=
       await (allSettled (completion <$> tasks)) (λ _,
         Fulfilled {| groupName := name this;
                      totalClients := length (clients this);
                      results := collect order tasks |}) |}.

(** [broadcastSuccess(title, description)] *)
Definition broadcastSuccess (title description : string) (order : list nat)
    (this : BroadcastGroup) : Async BroadcastSummary :=
  broadcastEmbed {| title := "✅ " +:+ title; description := description;
                    color := Some 0x00ff00%Z |} order this.

(** [broadcastError(title, description)] *)
Definition broadcastError (title description : string) (order : list nat)
    (this : BroadcastGroup) : Async BroadcastSummary :=
  broadcastEmbed {| title := "❌ " +:+ title; description := description;
                    color := Some 0xff0000%Z |} order this.

(** [broadcastWarning(title, description)] *)
Definition broadcastWarning (title description : string) (order : list nat)
    (this : BroadcastGroup) : Async BroadcastSummary :=
  broadcastEmbed {| title := "⚠️ " +:+ title; description := description;
                    color := Some 0xffff00%Z |} order this.

(** [broadcastInfo(title, description)] *)
Definition broadcastInfo (title description : string) (order : list nat)
    (this : BroadcastGroup) : Async BroadcastSummary :=
  broadcastEmbed {| title := "ℹ️ " +:+ title; description := description;
                    color := Some 0x3498db%Z |} order this.

(** Body of the arrow function in [testConnections]. *)
Definition testConnectionsTask (e : ClientEntry) : Task TestConnectionResult.t :=
  let failure message :=
    {| TestConnectionResult.platform := platform e;
       TestConnectionResult.connected := false;
       TestConnectionResult.error := message |} in
  let report connected :=
    {| TestConnectionResult.platform := platform e;
       TestConnectionResult.connected := connected;
       TestConnectionResult.error := None |} in
  match testConnection (client e) with
  | Some testConnection =>
      let invoked := [CallTestConnection] in
      match testConnection with
      | Returned (Fulfilled connected) => assigns invoked (alias e) (report connected)
      | Returned Pending => suspended invoked
      | Returned (Rejected err) => catchClause invoked (alias e) failure err
      | Threw err => catchClause invoked (alias e) failure err
      end
  | None =>
      let invoked := [CallSend (MessageText "Test") None] in
      match send (client e) (MessageText "Test") None with
      | Returned (Fulfilled _) => assigns invoked (alias e) (report true)   (* [.then(() => true)] *)
      | Returned (Rejected _) => assigns invoked (alias e) (report false)  (* [.catch(() => false)] *)
      | Returned Pending => suspended invoked
      | Threw err => catchClause invoked (alias e) failure err
      end
  end.

(** [testConnections()] *)
Definition testConnections (order : list nat) (this : BroadcastGroup)
  : Async (JsObject TestConnectionResult.t) :=
  let tasks := testConnectionsTask <$> clients this in
  {| invocations := trace tasks;
     promise :=
       await (allSettled (completion <$> tasks)) (λ _,
         Fulfilled (collect order tasks)) |}.

(** ** Vocabulary of the properties *)

(** The entry [addClient] pushes for a valid client [c]. *)
Definition entryFor (this : BroadcastGroup) (c : PlatformClient) (a : option string)
  : ClientEntry :=
  {| client := c;
     alias := orElse a ("client_" +:+ JsString.ofNat (length (clients this) + 1));
     platform := platformOf c |}.

(** Groups a program can hold: built by the constructor, then changed by
    [addClient] and [removeClient] only (no other method writes
    [this.clients]). *)
Inductive reachable : BroadcastGroup → Prop :=
| reachable_new name initial this :
    newBroadcastGroup name initial = Normal this → reachable this
| reachable_addClient this v a r this' :
    reachable this → addClient v a this = (r, this') → reachable this'
| reachable_removeClient this a r this' :
    reachable this → removeClient a this = (r, this') → reachable this'.

Definition aliasesNonEmpty (this : BroadcastGroup) : Prop :=
  Forall (λ e, alias e ≠ "") (clients this).

(** The platform label as the specification words it: the type name with
    a trailing ["Client"] stripped, lowercased. *)
Definition platformBySuffix (typeName : string) : string :=
  JsString.toLowerCase
    (if JsString.endsWith "Client" typeName
     then String.substring 0 (String.length typeName - String.length "Client") typeName
     else typeName).

(** How a client answers [send(message, options)]. *)
Definition sendFulfills (message : Message) (options : option (gmap string JsOpaque))
    (e : ClientEntry) : bool :=
  match send (client e) message options with
  | Returned (Fulfilled _) => true
  | _ => false
  end.

Definition sendRejects (message : Message) (options : option (gmap string JsOpaque))
    (e : ClientEntry) : bool :=
  match send (client e) message options with
  | Returned (Rejected _) => true
  | _ => false
  end.

(** The rejection reason is a value whose [message] can be read, that is
    anything but [null] and [undefined]. *)
Definition sendRejectsReadably (message : Message) (options : option (gmap string JsOpaque))
    (e : ClientEntry) : bool :=
  match send (client e) message options with
  | Returned (Rejected (ThrownError _)) | Returned (Rejected (ThrownOther _)) => true
  | _ => false
  end.

(** [order] lists every index of [this.clients] once: each per-client
    promise settles exactly once. *)
Definition schedules (order : list nat) (this : BroadcastGroup) : Prop :=
  order ≡ₚ seq 0 (length (clients this)).

(** The aliases of the registry, in registration order. *)
Definition aliases (this : BroadcastGroup) : list string := alias <$> clients this.

(** Number of own entries of a [results] object satisfying [p]. *)
Definition countEntries {V} (p : V → bool) (o : JsObject V) : nat :=
  length (filter (λ kv, p kv.2 = true) (map_to_list (own o))).

(** ** Sample clients and groups *)

Module Scenario.

(** A client whose [send] always fulfills. *)
Definition discord : PlatformClient :=
  {| constructorName := "DiscordClient";
     send := λ _ _, Returned (Fulfilled (OpaqueRef 1));
     sendEmbed := None;
     testConnection := None |}.

(** A client whose [send] always rejects with [new Error("timeout")]. *)
Definition slack : PlatformClient :=
  {| constructorName := "SlackClient";
     send := λ _ _, Returned (Rejected (ThrownError (newError "timeout")));
     sendEmbed := None;
     testConnection := None |}.

(** Clients whose class names carry ["Client"] elsewhere than at the end. *)
Definition pool : PlatformClient :=
  {| constructorName := "ClientPool";
     send := λ _ _, Returned (Fulfilled (OpaqueRef 2));
     sendEmbed := None;
     testConnection := None |}.

Definition relay : PlatformClient :=
  {| constructorName := "HttpClientSlackClient";
     send := λ _ _, Returned (Fulfilled (OpaqueRef 3));
     sendEmbed := None;
     testConnection := None |}.

(** A client whose [send] always rejects with [null]. *)
Definition mute : PlatformClient :=
  {| constructorName := "MuteClient";
     send := λ _ _, Returned (Rejected ThrownNull);
     sendEmbed := None;
     testConnection := None |}.

Definition empty : BroadcastGroup := {| name := "alerts"; clients := [] |}.

(** [new BroadcastGroup("alerts", [discord, slack])] *)
Definition alerts : BroadcastGroup :=
  {| name := "alerts";
     clients := [ {| client := discord; alias := "client_1"; platform := "discord" |};
                  {| client := slack; alias := "client_2"; platform := "slack" |} ] |}.

(** [new BroadcastGroup("alerts").addClient(discord, "ops").addClient(slack, "ops")] *)
Definition twins : BroadcastGroup :=
  {| name := "alerts";
     clients := [ {| client := discord; alias := "ops"; platform := "discord" |};
                  {| client := slack; alias := "ops"; platform := "slack" |} ] |}.

(** [new BroadcastGroup("alerts", [mute])] *)
Definition silent : BroadcastGroup :=
  {| name := "alerts";
     clients := [ {| client := mute; alias := "client_1"; platform := "mute" |} ] |}.

(** [new BroadcastGroup("alerts").addClient(discord, "__proto__")] *)
Definition shadowed : BroadcastGroup :=
  {| name := "alerts";
     clients := [ {| client := discord; alias := "__proto__"; platform := "discord" |} ] |}.

End Scenario.

(** ** Reading a run of the dispatch *)

(** The assignments [results[k] = v] performed, in the order [order] in
    which the tasks resume. *)
Definition assignments {V} (order : list nat) (tasks : list (Task V)) : list (string * V) :=
  omap (λ i, tasks !! i ≫= assignment) order.

(** [o] after the assignments [ws], first to last. *)
Definition assignAll {V} (o : JsObject V) (ws : list (string * V)) : JsObject V :=
  foldl (λ o kv, assign o kv.1 kv.2) o ws.

(** [v] is what [o] holds under [k]: as an own entry, or as what [o[k]]
    reads. *)
Definition holds {V} (o : JsObject V) (k : string) (v : V) : Prop :=
  own o !! k = Some v ∨ get o k = Some v.

(** No other registered entry carries the alias of the entry at [i]. *)
Definition aliasUniqueAt (this : BroadcastGroup) (i : nat) : Prop :=
  ∀ j e e', clients this !! i = Some e → clients this !! j = Some e' →
            alias e' = alias e → j = i.

(** Number of registered clients whose [send(message, options)] rejects. *)
Definition rejecting (message : Message) (options : option (gmap string JsOpaque))
    (this : BroadcastGroup) : nat :=
  length (filter (λ e, sendRejects message options e = true) (clients this)).

(** The client's [send(message, options)] fulfills, or rejects with a
    reason other than [null] and [undefined]. *)
Definition answers (message : Message) (options : option (gmap string JsOpaque))
    (e : ClientEntry) : Prop :=
  sendFulfills message options e = true ∨ sendRejectsReadably message options e = true.

(** ** Further vocabulary *)

(** The alias [addClient] generates when [n - 1] clients are registered. *)
Definition autoAlias (n : nat) : string := "client_" +:+ JsString.ofNat n.

(** The registry the constructor builds from valid clients: the [i]-th
    (from 0) is aliased [client_<i+1>]. *)
Definition constructed (cs : list PlatformClient) : list ClientEntry :=
  imap (λ i c, {| client := c; alias := autoAlias (i + 1); platform := platformOf c |}) cs.

(** Number of entries registered under the alias [a]. *)
Definition aliasCount (a : string) (this : BroadcastGroup) : nat :=
  length (filter (λ e, alias e = a) (clients this)).

(** The one call [broadcastEmbed] makes on the client of an entry. *)
Definition embedCall (embed : EmbedOptions) (e : ClientEntry) : Call :=
  match sendEmbed (client e) with
  | Some _ => CallSendEmbed embed
  | None =>
      CallSend (MessageText ("**" +:+ title embed +:+ "**" +:+ JsString.newline
                             +:+ description embed)) None
  end.

(** The one call [testConnections] makes on the client of an entry. *)
Definition probeCall (e : ClientEntry) : Call :=
  match testConnection (client e) with
  | Some _ => CallTestConnection
  | None => CallSend (MessageText "Test") None
  end.

(** ** A client with the optional capabilities *)

Module Studio.

(** A client exposing [sendEmbed] and [testConnection]: embeds fulfill,
    the connection test answers [false], [send] is never expected. *)
Definition rich : PlatformClient :=
  {| constructorName := "RichClient";
     send := λ _ _, Returned (Rejected (ThrownError (newError "unused")));
     sendEmbed := Some (λ _, Returned (Fulfilled (OpaqueRef 4)));
     testConnection := Some (Returned (Fulfilled false)) |}.

(** A client whose [send] throws before returning a promise. *)
Definition brittle : PlatformClient :=
  {| constructorName := "BrittleClient";
     send := λ _ _, Threw (ThrownError (newError "not configured"));
     sendEmbed := None;
     testConnection := None |}.

(** [new BroadcastGroup("studio", [rich, brittle])] *)
Definition studio : BroadcastGroup :=
  {| name := "studio";
     clients := [ {| client := rich; alias := "client_1"; platform := "rich" |};
                  {| client := brittle; alias := "client_2"; platform := "brittle" |} ] |}.

End Studio.

(** * SlackClient: a shallow embedding of the Slack webhook client

    The client builds a JSON payload from its configuration, the message
    and per-call options, posts it with [fetch] and wraps every failure in a
    [MessageSendError].  Objects are lists of own properties in insertion
    order; the network, the clock and the validators of
    [utils/validators.js] (not among the sources) are the fields of an
    environment [Env]. *)

Module Slack.

(** A JavaScript value on its way into a payload. *)
#[warnings="-register-all"] Inductive Value :=
| VUndefined
| VNull
| VBool (b : bool)
| VNumber (n : Z)
| VString (s : string)
| VArray (items : list Value)
| VObject (props : list (string * Value)).

(** [!!v] *)
Definition truthy (v : Value) : bool :=
  match v with
  | VUndefined | VNull => false
  | VBool b => b
  | VNumber n => negb (n =? 0)%Z
  | VString s => negb (String.eqb s "")
  | VArray _ | VObject _ => true
  end.

(** [v === undefined] *)
Definition isUndefined (v : Value) : bool :=
  match v with
  | VUndefined => true
  | _ => false
  end.

(** [a || b] *)
Definition or (a b : Value) : Value := if truthy a then a else b.

(** [o.k], [undefined] when [k] is not an own property. *)
Fixpoint getProp (k : string) (props : list (string * Value)) : Value :=
  match props with
  | [] => VUndefined
  | (k', v) :: props' => if String.eqb k' k then v else getProp k props'
  end.

(** Creating the data property [k]: an existing one keeps its place. *)
Fixpoint defineProp (k : string) (v : Value) (props : list (string * Value))
  : list (string * Value) :=
  match props with
  | [] => [(k, v)]
  | (k', v') :: props' =>
      if String.eqb k' k then (k, v) :: props' else (k', v') :: defineProp k v props'
  end.

(** [o[k] = v] on a plain object: as [defineProp], except that
    ["__proto__"] goes to the inherited setter and creates nothing. *)
Definition setProp (k : string) (v : Value) (props : list (string * Value))
  : list (string * Value) :=
  if String.eqb k "__proto__" then props else defineProp k v props.

(** [delete o[k]] *)
Definition deleteProp (k : string) (props : list (string * Value)) : list (string * Value) :=
  filter (λ kv, kv.1 ≠ k) props.

(** [Object.assign(target, source)] *)
Definition objectAssign (target source : list (string * Value)) : list (string * Value) :=
  foldl (λ o kv, setProp kv.1 kv.2 o) target source.

(** [{...literal, ...source}] *)
Definition spread (literal source : list (string * Value)) : list (string * Value) :=
  foldl (λ o kv, defineProp kv.1 kv.2 o) literal source.

(** ["0".repeat(k)] *)
Fixpoint zeros (k : nat) : string :=
  match k with
  | O => ""
  | S k' => String (Ascii.ascii_of_nat 48) (zeros k')
  end.

(** [s.padStart(n, "0")] *)
Definition padStart0 (n : nat) (s : string) : string :=
  zeros (n - String.length s) +:+ s.

(** [n.toString(16)] for an integer. *)
Definition toString16 (n : Z) : string :=
  match n with
  | Z0 => "0"
  | Zpos p => HexadecimalString.NilEmpty.string_of_uint (Pos.to_hex_uint p)
  | Zneg p => "-" +:+ HexadecimalString.NilEmpty.string_of_uint (Pos.to_hex_uint p)
  end.

(** [SlackClientConfig], as the caller gives it. *)
Record SlackClientConfig := {
  givenWebhookUrl : option string;
  givenUsername : option string;
  givenIconEmoji : option string;
  givenIconUrl : option string;
  givenChannel : option string;
  givenDefaultColor : option string;
  givenTimeout : option Z;
}.

(** [Required<SlackClientConfig>], as the client keeps it. *)
Record Config := {
  webhookUrl : string;
  username : string;
  iconEmoji : string;
  iconUrl : string;
  channel : string;
  defaultColor : string;
  timeout : Z;
}.

(** [SlackMessageOptions] *)
Record SlackMessageOptions := {
  optUsername : option string;
  optIconEmoji : option string;
  optIconUrl : option string;
  optChannel : option string;
  optAttachments : option (list Value);
  optBlocks : option (list Value);
}.

Definition noOptions : SlackMessageOptions :=
  {| optUsername := None; optIconEmoji := None; optIconUrl := None;
     optChannel := None; optAttachments := None; optBlocks := None |}.

(** [message: string | object]; an object counts through its own
    enumerable properties. *)
Inductive SlackMessage :=
| Text (text : string)
| Object (props : list (string * Value)).

(** What [fetch] resolves to, as far as [send] looks at it. *)
Record Response := {
  ok : bool;
  status : nat;
  text : Settlement string;
}.

(** What the client depends on.  [validateRequired] and
    [IsValidWebhookUrl] are the functions of [utils/validators.js], which is
    not among the sources; they are taken as given.  [fetch url body] is
    [fetch(url, {method: "POST", headers: {"Content-Type":
    "application/json"}, body: JSON.stringify(body)})]. *)
Record Env := {
  validateRequired : Config → list string → string → Completion unit;
  IsValidWebhookUrl : string → string → bool;
  fetch : string → Value → Settlement Response;
  dateNow : Z;
  toISOString : string;
}.

Record SlackClient := { config : Config }.

(** [_validateConfig()] *)
Definition _validateConfig (env : Env) (config : Config) : Completion unit :=
  match validateRequired env config ["webhookUrl"] "Slack" with
  | Throw err => Throw err
  | Normal _ =>
      if IsValidWebhookUrl env (webhookUrl config) "slack" then Normal tt
      else Throw (ThrownError (newConfigurationError
             "Invalid Slack webhook URL format. Expected: https://hooks.slack.com/services/..."))
  end.

(** The [this.config] the constructor stores: every setting that is
    absent or falsy gets its default. *)
Definition resolved (given : SlackClientConfig) : Config :=
  {| webhookUrl := orElse (givenWebhookUrl given) "";
     username := orElse (givenUsername given) "ZNotify Bot";
     iconEmoji := orElse (givenIconEmoji given) ":robot_face:";
     iconUrl := orElse (givenIconUrl given) "";
     channel := orElse (givenChannel given) "";
     defaultColor := orElse (givenDefaultColor given) "#3498db";
     timeout := match givenTimeout given with
                | Some t => if (t =? 0)%Z then 5000%Z else t
                | None => 5000%Z
                end |}.

(** [new SlackClient(config)] *)
Definition newSlackClient (env : Env) (given : SlackClientConfig) : Completion SlackClient :=
  match _validateConfig env (resolved given) with
  | Throw err => Throw err
  | Normal _ => Normal {| config := resolved given |}
  end.

(** [_buildPayload(message, options)] *)
Definition _buildPayload (this : SlackClient) (message : SlackMessage)
    (options : SlackMessageOptions) : list (string * Value) :=
  let payload :=
    [ ("username", VString (orElse (optUsername options) (username (config this))));
      ("icon_emoji", VString (orElse (optIconEmoji options) (iconEmoji (config this)))) ] in
  let payload :=
    if negb (String.eqb (orElse (optIconUrl options) (iconUrl (config this))) "")
    then deleteProp "icon_emoji"
           (setProp "icon_url"
              (VString (orElse (optIconUrl options) (iconUrl (config this)))) payload)
    else payload in
  let payload :=
    if negb (String.eqb (orElse (optChannel options) (channel (config this))) "")
    then setProp "channel" (VString (orElse (optChannel options) (channel (config this)))) payload
    else payload in
  match message with
  | Text text => setProp "text" (VString text) payload
  | Object props => objectAssign payload props
  end.

(** [originalError?.message] inside a template literal. *)
Definition renderMessage (originalError : Thrown) : string :=
  match originalError with
  | ThrownError e => errorMessage e
  | ThrownOther (Some message) => message
  | ThrownOther None | ThrownNull | ThrownUndefined => "undefined"
  end.

(** [new MessageSendError(platform, originalError)], as a thrown value. *)
Definition messageSendError (platform : string) (originalError : Thrown) : Thrown :=
  ThrownError (newMessageSendError platform (renderMessage originalError)).

(** The object [send] resolves to. *)
Record SendResult := {
  success : bool;
  platform : string;
  timestamp : string;
}.

(** [send(message, options = {})]: an async method, so every failure is
    a rejection. *)
Definition send (env : Env) (this : SlackClient) (message : SlackMessage)
    (options : option SlackMessageOptions) : Settlement SendResult :=
  let payload := _buildPayload this message (default noOptions options) in
  match fetch env (webhookUrl (config this)) (VObject payload) with
  | Pending => Pending
  | Rejected error => Rejected (messageSendError "Slack" error)
  | Fulfilled response =>
      if ok response
      then Fulfilled {| success := true; platform := "slack"; timestamp := toISOString env |}
      else match text response with
           | Pending => Pending
           | Rejected error => Rejected (messageSendError "Slack" error)
           | Fulfilled errorText =>
               Rejected (messageSendError "Slack"
                 (ThrownError (newError ("Slack API Error: " +:+ JsString.ofNat (status response)
                                         +:+ " - " +:+ errorText))))
           end
  end.

(** The [attachmentWithDefaults] of [sendAttachment]:
    [{color: attachment.color || defaultColor,
      ts: attachment.ts || Math.floor(Date.now() / 1000), ...attachment}]. *)
Definition attachmentWithDefaults (env : Env) (this : SlackClient)
    (attachment : list (string * Value)) : list (string * Value) :=
  spread [ ("color", or (getProp "color" attachment)
                        (VString (defaultColor (config this))));
           ("ts", or (getProp "ts" attachment) (VNumber (dateNow env / 1000))) ]
         attachment.

(** [sendAttachment(attachment)] *)
Definition sendAttachment (env : Env) (this : SlackClient) (attachment : list (string * Value))
  : Settlement SendResult :=
  send env this
    (Object [("attachments", VArray [VObject (attachmentWithDefaults env this attachment)])])
    None.

(** One entry of [embedOptions.fields]. *)
Record EmbedField := {
  fieldName : string;
  fieldValue : string;
  fieldInline : option bool;
}.

(** The argument of [sendEmbed]. *)
Record EmbedOptions := {
  title : option string;
  description : option string;
  color : option Z;
  fields : option (list EmbedField);
  footer : option (string * option string);          (* text, icon_url *)
  author : option (string * option string * option string); (* name, url, icon_url *)
  thumbnail : option string;                          (* url *)
  image : option string;                              (* url *)
  url : option string;
}.

Definition ofOption (o : option string) : Value :=
  match o with
  | Some s => VString s
  | None => VUndefined
  end.

(** The [color] of the attachment [sendEmbed] builds. *)
Definition colorHex (this : SlackClient) (embedOptions : EmbedOptions) : string :=
  match color embedOptions with
  | Some c => if (c =? 0)%Z then defaultColor (config this)
              else "#" +:+ padStart0 6 (toString16 c)
  | None => defaultColor (config this)
  end.

(** The attachment [sendEmbed] hands to [sendAttachment], after the keys
    holding [undefined] are deleted. *)
Definition embedAttachment (env : Env) (this : SlackClient) (embedOptions : EmbedOptions)
  : list (string * Value) :=
  let fields :=
    match fields embedOptions with
    | Some fs =>
        (λ f, VObject [ ("title", VString (fieldName f));
                        ("value", VString (fieldValue f));
                        ("short", VBool (default false (fieldInline f))) ]) <$> fs
    | None => []
    end in
  let attachment :=
    [ ("color", VString (colorHex this embedOptions));
      ("title", ofOption (title embedOptions));
      ("title_link", ofOption (url embedOptions));
      ("text", ofOption (description embedOptions));
      ("fields", if (0 <? length fields)%nat then VArray fields else VUndefined);
      ("footer", ofOption (fst <$> footer embedOptions));
      ("footer_icon", ofOption (footer embedOptions ≫= snd));
      ("author_name", ofOption ((λ a, a.1.1) <$> author embedOptions));
      ("author_link", ofOption (author embedOptions ≫= (λ a, a.1.2)));
      ("author_icon", ofOption (author embedOptions ≫= snd));
      ("thumb_url", ofOption (thumbnail embedOptions));
      ("image_url", ofOption (image embedOptions));
      ("ts", VNumber (dateNow env / 1000)) ] in
  filter (λ kv, isUndefined kv.2 = false) attachment.

(** [sendEmbed(embedOptions)] *)
Definition sendEmbed (env : Env) (this : SlackClient) (embedOptions : EmbedOptions)
  : Settlement SendResult :=
  sendAttachment env this (embedAttachment env this embedOptions).

(** [sendSuccess], [sendError], [sendWarning], [sendInfo] *)
Definition sendSuccess (env : Env) (this : SlackClient) (heading body : string)
  : Settlement SendResult :=
  sendAttachment env this
    [("color", VString "good"); ("title", VString ("✅ " +:+ heading)); ("text", VString body)].

Definition sendError (env : Env) (this : SlackClient) (heading body : string)
  : Settlement SendResult :=
  sendAttachment env this
    [("color", VString "danger"); ("title", VString ("❌ " +:+ heading)); ("text", VString body)].

Definition sendWarning (env : Env) (this : SlackClient) (heading body : string)
  : Settlement SendResult :=
  sendAttachment env this
    [("color", VString "warning"); ("title", VString ("⚠️ " +:+ heading)); ("text", VString body)].

Definition sendInfo (env : Env) (this : SlackClient) (heading body : string)
  : Settlement SendResult :=
  sendAttachment env this
    [("color", VString "#3498db"); ("title", VString ("ℹ️ " +:+ heading)); ("text", VString body)].

(** [testConnection()] *)
Definition testConnection (env : Env) (this : SlackClient) : Settlement bool :=
  match send env this (Text "ZNotify connection test successful! 🚀") None with
  | Fulfilled _ => Fulfilled true
  | Rejected _ => Fulfilled false
  | Pending => Pending
  end.

End Slack.

(** Reading lower-case hexadecimal digits back as a number. *)
Definition parseHex (digits : string) : option Z :=
  (Z.of_N ∘ Pos.of_hex_uint) <$> HexadecimalString.NilEmpty.uint_of_string digits.

(** ** A sample Slack environment *)

Module SlackScenario.

Definition hook : string := "https://hooks.slack.com/services/T0/B0/secret".

(** Validators that accept the URLs under the Slack prefix, a network
    that answers 200 on [hook] and 404 "no_service" elsewhere, a fixed
    clock. *)
Definition env : Slack.Env :=
  {| Slack.validateRequired := λ _ _ _, Normal tt;
     Slack.IsValidWebhookUrl := λ url _, JsString.startsWith "https://hooks.slack.com/services/" url;
     Slack.fetch := λ url _,
       Fulfilled {| Slack.ok := String.eqb url hook;
                    Slack.status := if String.eqb url hook then 200 else 404;
                    Slack.text := Fulfilled "no_service" |};
     Slack.dateNow := 1700000000123;
     Slack.toISOString := "2023-11-14T22:13:20.123Z" |}.

(** [new SlackClient({webhookUrl: hook})] *)
Definition given : Slack.SlackClientConfig :=
  {| Slack.givenWebhookUrl := Some hook; Slack.givenUsername := None;
     Slack.givenIconEmoji := None; Slack.givenIconUrl := None;
     Slack.givenChannel := None; Slack.givenDefaultColor := None;
     Slack.givenTimeout := None |}.

Definition client : Slack.SlackClient :=
  {| Slack.config :=
       {| Slack.webhookUrl := hook; Slack.username := "ZNotify Bot";
          Slack.iconEmoji := ":robot_face:"; Slack.iconUrl := "";
          Slack.channel := ""; Slack.defaultColor := "#3498db";
          Slack.timeout := 5000 |} |}.

(** The same client pointed at a webhook that was revoked. *)
Definition revoked : Slack.SlackClient :=
  {| Slack.config :=
       {| Slack.webhookUrl := "https://hooks.slack.com/services/T0/B0/old";
          Slack.username := "ZNotify Bot";
          Slack.iconEmoji := ":robot_face:"; Slack.iconUrl := "";
          Slack.channel := ""; Slack.defaultColor := "#3498db";
          Slack.timeout := 5000 |} |}.

End SlackScenario.


(** * Properties *)

(** ** Registration *)

Section Registration.
Implicit Types (this : BroadcastGroup) (v : JsValue) (c : PlatformClient).

Lemma callableSend_truthy v c : callableSend v = Some c → truthy v = true.
Proof. by destruct v. Qed.

Lemma addClient_rejects this v a :
  callableSend v = None →
  addClient v a this
  = (Throw (ThrownError (newError "Invalid client: must implement send()")), this).
Proof.
  intros Hnone. unfold addClient. rewrite Hnone.
  by destruct (truthy v).
Qed.

Lemma addClient_accepts this v c a :
  callableSend v = Some c →
  addClient v a this
  = (Normal tt, {| name := name this; clients := clients this ++ [entryFor this c a] |}).
Proof.
  intros Hsome. unfold addClient.
  by rewrite (callableSend_truthy _ _ Hsome), Hsome.
Qed.

Lemma orElse_nonempty a b : b ≠ "" → orElse a b ≠ "".
Proof.
  intros Hb. destruct a as [s|]; simpl; [|done].
  destruct (String.eqb_spec s ""); done.
Qed.

Lemma entryFor_alias_nonempty this c a : alias (entryFor this c a) ≠ "".
Proof. by apply orElse_nonempty. Qed.

(** [findIndex] answers -1 or a position of the list. *)
Lemma findIndex_range {A} (pred : A → bool) (l : list A) :
  findIndex pred l = (-1)%Z ∨ (0 ≤ findIndex pred l < Z.of_nat (length l))%Z.
Proof.
  induction l as [|x l IH]; simpl; [by left|].
  destruct (pred x); [right; lia|].
  destruct (Z.leb_spec 0 (findIndex pred l)); [right; lia | by left].
Qed.

Lemma findIndex_found {A} (pred : A → bool) (l : list A) :
  (0 ≤ findIndex pred l)%Z →
  ∃ before x after,
    l = before ++ x :: after ∧ pred x = true
    ∧ Forall (λ y, pred y = false) before
    ∧ Z.to_nat (findIndex pred l) = length before.
Proof.
  induction l as [|x l IH]; simpl; [lia|].
  destruct (pred x) eqn:Hx.
  - intros _. by exists [], x, l.
  - destruct (Z.leb_spec 0 (findIndex pred l)) as [Hge|Hlt]; [|lia].
    intros _. destruct (IH Hge) as (before & y & after & -> & Hy & Hall & Hlen).
    exists (x :: before), y, after. repeat split; [done|by constructor|].
    simpl. lia.
Qed.

Lemma findIndex_missing {A} (pred : A → bool) (l : list A) :
  ¬ (0 ≤ findIndex pred l)%Z → Forall (λ y, pred y = false) l.
Proof.
  induction l as [|x l IH]; simpl; [constructor|].
  destruct (pred x) eqn:Hx; [lia|].
  destruct (Z.leb_spec 0 (findIndex pred l)) as [Hge|Hlt]; [lia|].
  intros _. constructor; [done|]. apply IH. lia.
Qed.

Lemma removeClient_unfold this a :
  removeClient a this
  = let index := findIndex (λ e, String.eqb (alias e) a) (clients this) in
    if (0 <=? index)%Z
    then (Normal true, {| name := name this; clients := delete (Z.to_nat index) (clients this) |})
    else (Normal false, this).
Proof.
  unfold removeClient, mbind, Method_bind, getClients. simpl.
  by destruct (0 <=? _)%Z.
Qed.

End Registration.

Section Invariant.

Lemma addClient_keeps_nonempty this v a r this' :
  aliasesNonEmpty this → addClient v a this = (r, this') → aliasesNonEmpty this'.
Proof.
  intros Hinv Hadd. destruct (callableSend v) as [c|] eqn:Hc.
  - rewrite (addClient_accepts _ _ _ _ Hc) in Hadd. injection Hadd as _ <-.
    apply Forall_app. split; [done|].
    constructor; [apply entryFor_alias_nonempty | constructor].
  - rewrite (addClient_rejects _ _ _ Hc) in Hadd. by injection Hadd as _ <-.
Qed.

Lemma removeClient_keeps_nonempty this a r this' :
  aliasesNonEmpty this → removeClient a this = (r, this') → aliasesNonEmpty this'.
Proof.
  intros Hinv. rewrite removeClient_unfold. unfold aliasesNonEmpty.
  destruct (0 <=? _)%Z; intros [= _ <-]; [|done]. simpl.
  rewrite delete_take_drop. apply Forall_app. split.
  - by apply Forall_take.
  - by apply Forall_drop.
Qed.

Lemma forEach_addClient_keeps_nonempty initial this r this' :
  aliasesNonEmpty this →
  forEach (λ c, addClient c None) initial this = (r, this') →
  aliasesNonEmpty this'.
Proof.
  revert this. induction initial as [|v initial IH]; intros this Hinv; simpl.
  - by intros [= _ <-].
  - unfold mbind, Method_bind.
    destruct (addClient v None this) as [[[]|err] this1] eqn:Hadd.
    + apply IH. by eapply addClient_keeps_nonempty.
    + intros [= _ <-]. by eapply addClient_keeps_nonempty.
Qed.

Lemma reachable_aliasesNonEmpty this : reachable this → aliasesNonEmpty this.
Proof.
  induction 1 as [name initial this Hnew | this v a r this' _ IH Hadd
                  | this a r this' _ IH Hrem].
  - unfold newBroadcastGroup in Hnew.
    destruct (forEach _ initial _) as [[[]|err] this0] eqn:Hfold; [|done].
    injection Hnew as <-.
    eapply forEach_addClient_keeps_nonempty; [|exact Hfold]. constructor.
  - by eapply addClient_keeps_nonempty.
  - by eapply removeClient_keeps_nonempty.
Qed.

End Invariant.

(** ** Strings *)

Section Strings.

Lemma replace_absent pat s :
  JsString.includes pat s = false → JsString.replace pat "" s = s.
Proof.
  induction s as [|c s IH]; simpl.
  - by destruct (JsString.startsWith pat "").
  - intros [Hhead Htail]%orb_false_iff. rewrite Hhead. by rewrite IH.
Qed.

Lemma append_nil s : "" +:+ s = s.
Proof. reflexivity. Qed.

Lemma append_cons c s t : String c s +:+ t = String c (s +:+ t).
Proof. reflexivity. Qed.

(** A prefix of [s +:+ t] lies within [s] or runs over its end. *)
Lemma startsWith_app pat s t :
  JsString.startsWith pat (s +:+ t) = true →
  JsString.startsWith pat s = true
  ∨ ∃ rest, pat = s +:+ rest ∧ JsString.startsWith rest t = true.
Proof.
  revert s. induction pat as [|p pat IH]; intros s; [by left|].
  destruct s as [|c s]; simpl.
  - intros Ht. right. by exists (String p pat).
  - intros [Hc Hrest]%andb_true_iff. rewrite Hc. simpl.
    destruct (IH _ Hrest) as [Hin | (rest & -> & Hover)]; [by left|].
    right. exists rest. split; [|done].
    by apply Ascii.eqb_eq in Hc as ->.
Qed.

(** ["Client"] does not overlap itself: an occurrence cannot begin inside
    [before] and run into the occurrence that follows it. *)
Lemma startsWith_Client_straddle c before after :
  JsString.startsWith "Client" (String c before) = false →
  JsString.startsWith "Client" (String c (before +:+ "Client" +:+ after)) = false.
Proof.
  intros Hhead.
  destruct (JsString.startsWith "Client" (String c (before +:+ "Client" +:+ after)))
    eqn:Hover; [|done].
  change (String c (before +:+ "Client" +:+ after))
    with (String c before +:+ ("Client" +:+ after)) in Hover.
  apply startsWith_app in Hover as [Hin | (rest & Hsplit & Hrest)]; [congruence|].
  injection Hsplit as Hc Hsplit. subst c.
  do 5 (destruct before as [|c before]; rewrite ?append_cons, ?append_nil in Hsplit;
        [subst rest; rewrite append_cons in Hrest; discriminate
        |injection Hsplit as Hc Hsplit; subst c]).
  destruct before; [|discriminate].
  simpl in Hhead. discriminate.
Qed.

Lemma replace_first_Client before after :
  JsString.includes "Client" before = false →
  JsString.replace "Client" "" (before +:+ "Client" +:+ after) = before +:+ after.
Proof.
  induction before as [|c before IH].
  - done.
  - intros Hnone.
    assert (JsString.startsWith "Client" (String c before) = false
            ∧ JsString.includes "Client" before = false) as [Hhead Htail].
    { by apply orb_false_iff. }
    change (String c before +:+ "Client" +:+ after)
      with (String c (before +:+ "Client" +:+ after)).
    unfold JsString.replace; fold JsString.replace.
    rewrite (startsWith_Client_straddle _ _ _ Hhead).
    change (String c before +:+ after) with (String c (before +:+ after)).
    by rewrite IH.
Qed.

End Strings.

(** ** The [results] object *)

Section Results.
Context {V : Type}.
Implicit Types (o : JsObject V) (ws : list (string * V)) (tasks : list (Task V)).

Lemma get_assign_eq o k v : get (assign o k v) k = Some v.
Proof.
  unfold get, assign. destruct (String.eqb k "__proto__"); simpl; [done|].
  apply lookup_insert_eq.
Qed.

Lemma get_assign_ne o k k' v : k' ≠ k → get (assign o k' v) k = get o k.
Proof.
  intros Hne. unfold get, assign.
  destruct (String.eqb_spec k' "__proto__") as [->|Hk'];
    destruct (String.eqb_spec k "__proto__") as [->|Hk]; simpl; try done.
  by apply lookup_insert_ne.
Qed.

Lemma holds_emptyObject k v : ¬ holds (@emptyObject V) k v.
Proof.
  unfold holds, get. simpl. rewrite lookup_empty.
  destruct (String.eqb k "__proto__"); intros [?|?]; done.
Qed.

Lemma holds_assign o k' v' k v :
  holds (assign o k' v') k v → (k = k' ∧ v = v') ∨ holds o k v.
Proof.
  destruct (decide (k = k')) as [->|Hne].
  - intros [Hown|Hget].
    + unfold assign in Hown. destruct (String.eqb k' "__proto__"); simpl in Hown.
      * right. by left.
      * rewrite lookup_insert_eq in Hown. left. by injection Hown.
    + rewrite get_assign_eq in Hget. left. by injection Hget.
  - intros [Hown|Hget]; right.
    + unfold assign in Hown. destruct (String.eqb k' "__proto__"); simpl in Hown.
      * by left.
      * rewrite lookup_insert_ne in Hown by done. by left.
    + rewrite get_assign_ne in Hget by done. by right.
Qed.

(** Whatever the object holds in the end was assigned at some point (or
    was there from the start). *)
Lemma holds_assignAll o ws k v :
  holds (assignAll o ws) k v → (k, v) ∈ ws ∨ holds o k v.
Proof.
  revert o. induction ws as [|[k' v'] ws IH]; intros o; simpl; [by right|].
  intros [Hin | Hstep]%IH.
  - left. by right.
  - apply holds_assign in Hstep as [[-> ->] | Hold]; [left; by left | by right].
Qed.


Lemma assignAll_snoc o ws k v :
  assignAll o (ws ++ [(k, v)]) = assign (assignAll o ws) k v.
Proof. unfold assignAll. by rewrite foldl_snoc. Qed.

(** With no assignment to [__proto__], the own entries are those of the
    map built from the assignments, later ones winning. *)
Lemma own_assignAll ws :
  "__proto__" ∉ ws.*1 →
  own (assignAll emptyObject ws) = list_to_map (reverse ws)
  ∧ proto (assignAll emptyObject ws) = None.
Proof.
  induction ws as [|kv ws IH] using rev_ind; [done|]. destruct kv as [k v].
  rewrite fmap_app, not_elem_of_app. intros [Hws Hk].
  destruct (IH Hws) as [IHown IHproto].
  rewrite assignAll_snoc, reverse_snoc, list_to_map_cons.
  unfold assign. destruct (String.eqb_spec k "__proto__") as [->|_]; simpl.
  - exfalso. apply Hk. simpl. by left.
  - by rewrite IHown.
Qed.

(** With pairwise distinct keys, none of them [__proto__], every
    assignment survives as one own entry. *)
Lemma entries_assignAll ws :
  NoDup ws.*1 → "__proto__" ∉ ws.*1 →
  map_to_list (own (assignAll emptyObject ws)) ≡ₚ ws
  ∧ proto (assignAll emptyObject ws) = None.
Proof.
  intros Hnodup Hproto. destruct (own_assignAll ws Hproto) as [-> ->].
  split; [|done].
  rewrite map_to_list_to_map.
  - apply reverse_Permutation.
  - by rewrite fmap_reverse, reverse_Permutation.
Qed.

Lemma collect_assignAll order tasks :
  collect order tasks = assignAll emptyObject (assignments order tasks).
Proof.
  unfold collect, assignAll, assignments.
  generalize (@emptyObject V).
  induction order as [|i order IH]; intros o; [done|]. simpl.
  destruct (tasks !! i) as [task|]; simpl; [|apply IH].
  destruct (assignment task) as [[k v]|]; simpl; apply IH.
Qed.

Lemma omap_seq_S {B} (f : nat → option B) j n :
  omap f (seq (S j) n) = omap (f ∘ S) (seq j n).
Proof.
  revert j. induction n as [|n IH]; intros j; [done|].
  simpl. rewrite IH. done.
Qed.

Lemma assignments_in_order tasks :
  assignments (seq 0 (length tasks)) tasks = omap assignment tasks.
Proof.
  unfold assignments. induction tasks as [|task tasks IH]; [done|].
  simpl. rewrite omap_seq_S. unfold compose. simpl.
  by rewrite IH.
Qed.

(** The assignments do not depend on the order of settlement, up to
    their own order. *)
Lemma assignments_Permutation order tasks :
  order ≡ₚ seq 0 (length tasks) →
  assignments order tasks ≡ₚ omap assignment tasks.
Proof.
  intros Horder. rewrite <- assignments_in_order.
  unfold assignments. by rewrite Horder.
Qed.

Lemma elem_of_assignments order tasks k v :
  (k, v) ∈ assignments order tasks →
  ∃ i task, i ∈ order ∧ tasks !! i = Some task ∧ assignment task = Some (k, v).
Proof.
  unfold assignments. rewrite list_elem_of_omap. intros (i & Hin & Hbind).
  destruct (tasks !! i) as [task|] eqn:Htask; [|done].
  by exists i, task.
Qed.


Lemma elem_of_trace tasks i call :
  (i, call) ∈ trace tasks ↔ ∃ task, tasks !! i = Some task ∧ call ∈ calls task.
Proof.
  unfold trace. rewrite list_elem_of_join. split.
  - intros (l & Hin & Hl). apply elem_of_lookup_imap in Hl as (j & task & -> & Htask).
    apply list_elem_of_fmap in Hin as (call' & [= -> ->] & Hcall).
    by exists task.
  - intros (task & Htask & Hcall). exists (pair i <$> calls task). split.
    + apply list_elem_of_fmap. by exists call.
    + by apply (elem_of_lookup_imap_2 (λ i task, pair i <$> calls task)).
Qed.

(** [Promise.allSettled] fulfills when every promise has settled, and has
    no way to reject. *)
Lemma allSettled_fulfills {A} (promises : list (Settlement A)) :
  Forall (λ p, isSettled p = true) promises → allSettled promises = Fulfilled promises.
Proof.
  intros Hall. unfold allSettled.
  assert (forallb isSettled promises = true) as ->; [|done].
  apply forallb_forall. intros p Hp. rewrite Forall_forall in Hall.
  apply Hall. by apply list_elem_of_In.
Qed.

Lemma allSettled_never_rejects {A} (promises : list (Settlement A)) reason :
  allSettled promises ≠ Rejected reason.
Proof. unfold allSettled. by destruct (forallb isSettled promises). Qed.

Lemma await_allSettled_never_rejects {A B} (promises : list (Settlement A)) (b : B) reason :
  await (allSettled promises) (λ _, Fulfilled b) ≠ Rejected reason.
Proof. unfold allSettled. by destruct (forallb isSettled promises). Qed.

End Results.

(** ** Dispatch *)

Section Dispatch.
Implicit Types (this : BroadcastGroup) (e : ClientEntry) (order : list nat).

Lemma catchClause_settled {V} cs k (mk : option string → V) err :
  isSettled (completion (catchClause cs k mk err)) = true.
Proof. unfold catchClause. by destruct (readMessage err). Qed.

Lemma catchClause_assignment {V} cs k (mk : option string → V) err k' v :
  assignment (catchClause cs k mk err) = Some (k', v) →
  k' = k ∧ ∃ message, readMessage err = Normal message ∧ v = mk message.
Proof.
  unfold catchClause. destruct (readMessage err) as [message|]; simpl; [|done].
  intros [= <- <-]. split; [done|]. by exists message.
Qed.

(** Every assignment of a task goes under the alias of its own entry. *)
Lemma broadcastTask_key message options e k v :
  assignment (broadcastTask message options e) = Some (k, v) → k = alias e.
Proof.
  unfold broadcastTask.
  destruct (send (client e) message (Some options)) as [err|[result|err|]]; simpl.
  - by intros [-> _]%catchClause_assignment.
  - by intros [= <- _].
  - by intros [-> _]%catchClause_assignment.
  - done.
Qed.





Lemma broadcast_fulfilled message options order this summary :
  promise (broadcast message options order this) = Fulfilled summary →
  summary = {| groupName := name this;
               totalClients := length (clients this);
               results := collect order (broadcastTask message (default ∅ options)
                                           <$> clients this) |}.
Proof.
  unfold broadcast, allSettled. simpl.
  destruct (forallb isSettled _); simpl; [|done]. by intros [= <-].
Qed.

Lemma broadcastEmbed_fulfilled embed order this summary :
  promise (broadcastEmbed embed order this) = Fulfilled summary →
  summary = {| groupName := name this;
               totalClients := length (clients this);
               results := collect order (broadcastEmbedTask embed <$> clients this) |}.
Proof.
  unfold broadcastEmbed, allSettled. simpl.
  destruct (forallb isSettled _); simpl; [|done]. by intros [= <-].
Qed.


(** A client that answers gets one assignment, a success exactly when it
    fulfilled. *)
Lemma broadcastTask_answers message options e :
  answers message (Some options) e →
  ∃ r, broadcastTask message options e
       = assigns [CallSend message (Some options)] (alias e) r
       ∧ BroadcastResult.success r = sendFulfills message (Some options) e
       ∧ BroadcastResult.success r = negb (sendRejects message (Some options) e).
Proof.
  unfold answers, sendFulfills, sendRejectsReadably, sendRejects, broadcastTask.
  destruct (send (client e) message (Some options)) as [err|[result|[| |err|m]|]];
    intros [?|?]; try done; by eexists.
Qed.

Lemma broadcast_assignments message options cs :
  Forall (answers message (Some options)) cs →
  let ws := omap assignment (broadcastTask message options <$> cs) in
  Forall (λ p, isSettled p = true) (completion <$> (broadcastTask message options <$> cs))
  ∧ ws.*1 = alias <$> cs
  ∧ length (filter (λ kv, negb (BroadcastResult.success kv.2) = true) ws)
    = length (filter (λ e, sendRejects message (Some options) e = true) cs)
  ∧ length (filter (λ kv, BroadcastResult.success kv.2 = true) ws)
    + length (filter (λ e, sendRejects message (Some options) e = true) cs)
    = length cs.
Proof.
  induction 1 as [|e cs He _ IH]; [done|].
  destruct IH as (IHsettled & IHkeys & IHfail & IHok).
  destruct (broadcastTask_answers _ _ _ He) as (r & Htask & Hok & Hfail).
  csimpl. rewrite Htask. csimpl. rewrite !filter_cons. simpl.
  split; [by constructor|]. split; [by rewrite IHkeys|].
  rewrite Hfail.
  destruct (sendRejects message (Some options) e); simpl;
    repeat case_decide; try done; simpl; split; lia.
Qed.

End Dispatch.

(** ** The scenarios, run *)

(** The groups of [Scenario] are what the constructor and [addClient]
    build. *)
Example scenario_alerts_constructed :
  newBroadcastGroup "alerts" [JsClient Scenario.discord; JsClient Scenario.slack]
  = Normal Scenario.alerts.
Proof. reflexivity. Qed.

Example scenario_alerts_reachable : reachable Scenario.alerts.
Proof. eapply reachable_new. apply scenario_alerts_constructed. Qed.

Example scenario_twins_registered :
  (addClient (JsClient Scenario.discord) (Some "ops");;
   addClient (JsClient Scenario.slack) (Some "ops")) Scenario.empty
  = (Normal tt, Scenario.twins).
Proof. reflexivity. Qed.

(** [broadcast("hi")] on "alerts": one success, one failure with the text
    "timeout". *)
Example scenario_alerts_broadcast :
  ∃ summary,
    promise (broadcast (MessageText "hi") None [0; 1] Scenario.alerts) = Fulfilled summary
    ∧ groupName summary = "alerts"
    ∧ totalClients summary = 2
    ∧ get (results summary) "client_1"
      = Some {| BroadcastResult.success := true; BroadcastResult.platform := "discord";
                BroadcastResult.result := Some (OpaqueRef 1);
                BroadcastResult.error := None; BroadcastResult.note := None |}
    ∧ get (results summary) "client_2"
      = Some {| BroadcastResult.success := false; BroadcastResult.platform := "slack";
                BroadcastResult.result := None;
                BroadcastResult.error := Some "timeout"; BroadcastResult.note := None |}.
Proof. eexists. split; [reflexivity|]. by repeat split. Qed.

(** A rejection with [null] leaves no entry at all: reading [err.message]
    throws inside the [catch] clause, and [Promise.allSettled] absorbs that
    rejection. *)
Example scenario_silent_broadcast :
  ∃ summary,
    promise (broadcast (MessageText "hi") None [0] Scenario.silent) = Fulfilled summary
    ∧ totalClients summary = 1
    ∧ size (own (results summary)) = 0.
Proof. eexists. split; [reflexivity|]. by split. Qed.

(** An entry aliased "__proto__" is readable under that key but is not an
    own entry of [results]. *)
Example scenario_shadowed_broadcast :
  ∃ summary,
    promise (broadcast (MessageText "hi") None [0] Scenario.shadowed) = Fulfilled summary
    ∧ totalClients summary = 1
    ∧ size (own (results summary)) = 0
    ∧ is_Some (get (results summary) "__proto__").
Proof. eexists. split; [reflexivity|]. by repeat split. Qed.

(** ** Claims about registration *)

(** C3, counterexample.  [addClient(null)] on an empty group throws, but
    what it throws is a plain [Error], named "Error" and without a [code]:
    it is not an instance of [ConfigurationError]. *)
Lemma addClient_null_not_ConfigurationError :
  ∃ err,
    addClient JsNull None Scenario.empty = (Throw (ThrownError err), Scenario.empty)
    ∧ errorMessage err = "Invalid client: must implement send()"
    ∧ errorName err = "Error"
    ∧ errorCode err = None
    ∧ instanceOf err ErrorBase = true
    ∧ instanceOf err ConfigurationErrorClass = false
    ∧ err ≠ newConfigurationError "Invalid client: must implement send()".
Proof.
  exists (newError "Invalid client: must implement send()").
  repeat split; done.
Qed.

(** C3, amended.  For every group and every value without a callable
    [send], [addClient] throws (synchronously, as the completion of the
    call) a plain [Error] whose message is "Invalid client: must implement
    send()", with no [code]; the group is left as it was, so [size()] is
    unchanged. *)
Theorem addClient_invalid_throws_Error this v a :
  callableSend v = None →
  let err := newError "Invalid client: must implement send()" in
  addClient v a this = (Throw (ThrownError err), this)
  ∧ size_ (addClient v a this).2 = size_ this
  ∧ errorClass err = ErrorBase
  ∧ errorMessage err = "Invalid client: must implement send()"
  ∧ errorCode err = None.
Proof.
  intros Hnone err. rewrite (addClient_rejects _ _ _ Hnone). by repeat split.
Qed.

(** The same on the "alerts" group, called with [undefined]. *)
Lemma addClient_invalid_throws_Error_witness :
  callableSend JsUndefined = None
  ∧ addClient JsUndefined (Some "ops") Scenario.alerts
    = (Throw (ThrownError (newError "Invalid client: must implement send()")),
       Scenario.alerts)
  ∧ size_ (addClient JsUndefined (Some "ops") Scenario.alerts).2 = 2.
Proof.
  split; [reflexivity|].
  destruct (addClient_invalid_throws_Error Scenario.alerts JsUndefined (Some "ops") eq_refl)
    as (Hthrow & Hsize & _).
  split; [exact Hthrow | exact Hsize].
Defined.

(** C6.  [removeClient(alias)] never throws; it returns [true] exactly
    when some entry carried that alias; then the first such entry is
    removed and [size()] drops by one; otherwise the group is unchanged. *)
Theorem removeClient_first_match this a :
  ∃ removed this',
    removeClient a this = (Normal removed, this')
    ∧ (removed = true ↔ ∃ e, e ∈ clients this ∧ alias e = a)
    ∧ (removed = true →
       ∃ before e after,
         clients this = before ++ e :: after
         ∧ alias e = a
         ∧ Forall (λ e', alias e' ≠ a) before
         ∧ clients this' = before ++ after
         ∧ name this' = name this
         ∧ size_ this = S (size_ this'))
    ∧ (removed = false → this' = this ∧ size_ this' = size_ this).
Proof.
  rewrite removeClient_unfold. cbv zeta.
  set (pred := λ e, String.eqb (alias e) a).
  destruct (Z.leb_spec 0 (findIndex pred (clients this))) as [Hge|Hlt].
  - destruct (findIndex_found pred _ Hge) as (before & e & after & Hsplit & He & Hbefore & Hlen).
    apply String.eqb_eq in He.
    eexists true, _. split; [done|]. split; [|split; [|done]].
    + split; [|done]. intros _. exists e. split; [|done].
      rewrite Hsplit. set_solver.
    + intros _. exists before, e, after.
      split; [done|]. split; [done|]. split.
      { eapply Forall_impl; [exact Hbefore|]. intros e' He'. by apply String.eqb_neq. }
      simpl. rewrite Hlen, Hsplit, delete_middle.
      split; [reflexivity|]. split; [reflexivity|].
      unfold size_. simpl. rewrite Hsplit, !length_app. simpl. lia.
  - eexists false, this. split; [done|]. split; [|split; [done|done]].
    split; [done|]. intros (e & Hin & He).
    assert (Forall (λ y, pred y = false) (clients this)) as Hall.
    { apply findIndex_missing. lia. }
    rewrite Forall_forall in Hall. specialize (Hall e Hin).
    unfold pred in Hall. apply String.eqb_neq in Hall. done.
Qed.

(** C8, counterexample.  An alias is supplied, the empty string, and the
    alias stored is "client_1" instead. *)
Lemma addClient_supplied_alias_not_stored :
  ∃ e,
    addClient (JsClient Scenario.discord) (Some "") Scenario.empty
    = (Normal tt, {| name := "alerts"; clients := [e] |})
    ∧ alias e = "client_1"
    ∧ alias e ≠ "".
Proof. eexists. split; [reflexivity|]. by split. Qed.

(** C8, amended.  [addClient] on a valid client appends one entry; with
    no alias supplied its alias is "client_" followed by the decimal
    digits of the registered count plus one; with a non-empty alias
    supplied, it is that alias. *)
Theorem addClient_alias this v c a :
  callableSend v = Some c →
  ∃ e,
    addClient v a this = (Normal tt, {| name := name this; clients := clients this ++ [e] |})
    ∧ client e = c
    ∧ match a with
      | None => alias e = "client_" +:+ JsString.ofNat (size_ this + 1)
      | Some supplied => supplied ≠ "" → alias e = supplied
      end.
Proof.
  intros Hc. exists (entryFor this c a).
  split; [by apply addClient_accepts|]. split; [done|].
  destruct a as [supplied|]; simpl; [|done].
  intros Hne. by destruct (String.eqb_spec supplied "").
Qed.

(** A third client added to "alerts" without an alias becomes "client_3". *)
Lemma addClient_alias_witness :
  ∃ e,
    addClient (JsClient Scenario.pool) None Scenario.alerts
    = (Normal tt, {| name := "alerts"; clients := clients Scenario.alerts ++ [e] |})
    ∧ alias e = "client_3".
Proof.
  destruct (addClient_alias Scenario.alerts (JsClient Scenario.pool) Scenario.pool None eq_refl)
    as (e & Hadd & _ & Halias).
  exists e. split; [exact Hadd | exact Halias].
Defined.

(** C10.  An empty-string alias is handled as no alias at all: the stored
    alias is the generated "client_<count+1>"; and no entry of a group
    built through the constructor, [addClient] and [removeClient] has the
    empty alias. *)
Theorem addClient_empty_alias this v :
  addClient v (Some "") this = addClient v None this
  ∧ (∀ c, callableSend v = Some c →
       ∃ e, addClient v (Some "") this
            = (Normal tt, {| name := name this; clients := clients this ++ [e] |})
            ∧ alias e = "client_" +:+ JsString.ofNat (size_ this + 1)
            ∧ alias e ≠ "")
  ∧ (reachable this → ∀ e, e ∈ clients this → alias e ≠ "").
Proof.
  split; [done|]. split.
  - intros c Hc. exists (entryFor this c (Some "")).
    split; [by apply addClient_accepts|]. by split.
  - intros Hreach e Hin.
    apply reachable_aliasesNonEmpty in Hreach.
    unfold aliasesNonEmpty in Hreach. rewrite Forall_forall in Hreach. by apply Hreach.
Qed.

(** C7, counterexample.  "ClientPool" has "Client" in a non-trailing
    position only, "HttpClientSlackClient" has it twice.  Stripping a
    trailing "Client" would label them "clientpool" and "httpclientslack";
    the labels stored are "pool" and "httpslackclient", the first occurrence
    being the one removed. *)
Lemma addClient_platform_not_suffix :
  (∃ e,
     addClient (JsClient Scenario.pool) None Scenario.empty
     = (Normal tt, {| name := "alerts"; clients := [e] |})
     ∧ platform e = "pool"
     ∧ platformBySuffix (constructorName (client e)) = "clientpool"
     ∧ platform e ≠ platformBySuffix (constructorName (client e)))
  ∧ (∃ e,
       addClient (JsClient Scenario.relay) None Scenario.empty
       = (Normal tt, {| name := "alerts"; clients := [e] |})
       ∧ platform e = "httpslackclient"
       ∧ platformBySuffix (constructorName (client e)) = "httpclientslack"
       ∧ platform e ≠ platformBySuffix (constructorName (client e))).
Proof.
  split; eexists; (split; [reflexivity|]); by repeat split.
Qed.

(** C7, amended.  The platform label of a registered client is its type
    name lowercased after removing the first (leftmost) occurrence of
    "Client", wherever that occurrence lies; a name without "Client" is only
    lowercased.  When the only occurrence is the trailing one this is the
    name with its "Client" suffix stripped. *)
Theorem addClient_platform this v c a :
  callableSend v = Some c →
  ∃ e,
    addClient v a this = (Normal tt, {| name := name this; clients := clients this ++ [e] |})
    ∧ client e = c
    ∧ (∀ before after,
         constructorName c = before +:+ "Client" +:+ after →
         JsString.includes "Client" before = false →
         platform e = JsString.toLowerCase (before +:+ after))
    ∧ (JsString.includes "Client" (constructorName c) = false →
       platform e = JsString.toLowerCase (constructorName c)).
Proof.
  intros Hc. exists (entryFor this c a).
  split; [by apply addClient_accepts|]. split; [done|]. split.
  - intros before after Hname Hfirst. simpl. unfold platformOf.
    by rewrite Hname, replace_first_Client.
  - intros Hnone. simpl. unfold platformOf. by rewrite replace_absent.
Qed.

(** "HttpClientSlackClient" splits as "Http" ++ "Client" ++ "SlackClient". *)
Lemma addClient_platform_witness :
  ∃ e,
    addClient (JsClient Scenario.relay) None Scenario.empty
    = (Normal tt, {| name := "alerts"; clients := [e] |})
    ∧ platform e = "httpslackclient".
Proof.
  destruct (addClient_platform Scenario.empty (JsClient Scenario.relay) Scenario.relay None eq_refl)
    as (e & Hadd & _ & Hfirst & _).
  exists e. split; [exact Hadd|].
  exact (Hfirst "Http" "SlackClient" eq_refl eq_refl).
Defined.

(** C9.  [broadcastSuccess(title, description)] is the call
    [broadcastEmbed({title: "✅ " + title, description, color: 0x00ff00})]:
    same client calls, same promise; in particular for "Deploy", "ok". *)
Theorem broadcastSuccess_is_broadcastEmbed this (title description : string) order :
  broadcastSuccess title description order this
  = broadcastEmbed {| title := "✅ " +:+ title; description := description;
                      color := Some 65280%Z |} order this
  ∧ broadcastSuccess "Deploy" "ok" order this
    = broadcastEmbed {| title := "✅ Deploy"; description := "ok";
                        color := Some 0x00ff00%Z |} order this.
Proof. by split. Qed.

(** ** Claims about dispatch *)

(** C1, counterexample.  Two clients registered under the same alias, one
    fulfilling and one rejecting (N = 2, K = 1): whatever the order of
    settlement, no summary with two entries comes back. *)
Lemma broadcast_shared_alias_loses_entry :
  size_ Scenario.twins = 2
  ∧ rejecting (MessageText "hi") (Some ∅) Scenario.twins = 1
  ∧ Forall (answers (MessageText "hi") (Some ∅)) (clients Scenario.twins)
  ∧ ¬ ∃ order summary,
        schedules order Scenario.twins
        ∧ promise (broadcast (MessageText "hi") None order Scenario.twins) = Fulfilled summary
        ∧ size (own (results summary)) = size_ Scenario.twins.
Proof.
  split; [done|]. split; [done|]. split.
  { constructor; [by left|]. constructor; [by right|]. constructor. }
  intros (order & summary & Horder & Hsummary & Hsize).
  apply broadcast_fulfilled in Hsummary. subst summary.
  unfold schedules in Horder. simpl in Horder.
  symmetry in Horder. apply Permutation_length_2_inv in Horder as [-> | ->];
    vm_compute in Hsize; discriminate.
Qed.

(** C1, amended.  For a group of N clients whose aliases are pairwise
    distinct and none of them "__proto__", K of whose [send] reject with a
    reason other than null/undefined while the other N−K fulfill,
    [broadcast] fulfills with a summary whose [results] has exactly N
    entries, K with [success = false] and N−K with [success = true], and
    whose [totalClients] is N. *)
Theorem broadcast_counts this message options order :
  schedules order this →
  NoDup (aliases this) →
  "__proto__" ∉ aliases this →
  Forall (answers message (Some (default ∅ options))) (clients this) →
  ∃ summary,
    promise (broadcast message options order this) = Fulfilled summary
    ∧ groupName summary = name this
    ∧ totalClients summary = size_ this
    ∧ size (own (results summary)) = size_ this
    ∧ proto (results summary) = None
    ∧ countEntries (λ r, negb (BroadcastResult.success r)) (results summary)
      = rejecting message (Some (default ∅ options)) this
    ∧ countEntries BroadcastResult.success (results summary)
      = size_ this - rejecting message (Some (default ∅ options)) this.
Proof.
  intros Horder Hnodup Hproto Hanswers.
  set (opts := default ∅ options) in *.
  set (tasks := broadcastTask message opts <$> clients this).
  destruct (broadcast_assignments _ _ _ Hanswers) as (Hsettled & Hkeys & Hfail & Hok).
  fold tasks in Hsettled, Hkeys, Hfail, Hok.
  assert (assignments order tasks ≡ₚ omap assignment tasks) as Hperm.
  { apply assignments_Permutation. unfold tasks. by rewrite length_fmap. }
  destruct (entries_assignAll (assignments order tasks)) as [Hentries Hnoproto].
  { by rewrite Hperm, Hkeys. }
  { by rewrite Hperm, Hkeys. }
  assert (Hall := transitivity Hentries Hperm). clear Hentries.
  eexists. split.
  { unfold broadcast. simpl. fold opts. fold tasks.
    by rewrite (allSettled_fulfills _ Hsettled). }
  simpl. rewrite collect_assignAll.
  split; [done|]. split; [done|]. split.
  { rewrite <- length_map_to_list, Hall.
    by rewrite <- (length_fmap fst), Hkeys, length_fmap. }
  split; [done|].
  unfold countEntries, rejecting, size_. rewrite !Hall. split; [done|]. lia.
Qed.

(** The "alerts" group, whose second client settles first: N = 2, K = 1. *)
Lemma broadcast_counts_witness :
  ∃ summary,
    promise (broadcast (MessageText "hi") None [1; 0] Scenario.alerts) = Fulfilled summary
    ∧ totalClients summary = 2
    ∧ size (own (results summary)) = 2
    ∧ countEntries (λ r, negb (BroadcastResult.success r)) (results summary) = 1
    ∧ countEntries BroadcastResult.success (results summary) = 1.
Proof.
  destruct (broadcast_counts Scenario.alerts (MessageText "hi") None [1; 0])
    as (summary & Hsummary & _ & Htotal & Hsize & _ & Hfail & Hok).
  - apply perm_swap.
  - refine (bool_decide_unpack _ _). vm_compute. exact I.
  - refine (bool_decide_unpack _ _). vm_compute. exact I.
  - constructor; [left; reflexivity|].
    constructor; [right; reflexivity|]. constructor.
  - exists summary. repeat split; assumption.
Defined.






(** * Further properties of the registry *)

Section RegistryMore.
Implicit Types (this : BroadcastGroup) (v : JsValue) (c : PlatformClient).



Lemma forEach_addClient_valid cs this :
  forEach (λ v, addClient v None) (JsClient <$> cs) this
  = (Normal tt,
     {| name := name this;
        clients := clients this
                   ++ imap (λ i c, {| client := c;
                                      alias := autoAlias (length (clients this) + i + 1);
                                      platform := platformOf c |}) cs |}).
Proof.
  revert this. induction cs as [|c cs IH]; intros this.
  - simpl. rewrite app_nil_r. by destruct this.
  - csimpl. unfold mbind, Method_bind.
    rewrite (addClient_accepts this (JsClient c) c None eq_refl).
    rewrite IH. simpl. f_equal. f_equal.
    rewrite <- app_assoc. f_equal. simpl. f_equal.
    + unfold entryFor, autoAlias. simpl. do 3 f_equal. lia.
    + apply imap_ext. intros i c' _. simpl. rewrite length_app. simpl.
      do 2 f_equal. lia.
Qed.


Lemma constructed_aliases cs :
  alias <$> constructed cs = autoAlias <$> seq 1 (length cs).
Proof.
  unfold constructed. rewrite fmap_imap.
  rewrite (imap_ext _ (λ i _, autoAlias (1 + i))).
  - by rewrite imap_seq.
  - intros i c _. simpl. f_equal. lia.
Qed.

Lemma ofNat_inj n m : JsString.ofNat n = JsString.ofNat m → n = m.
Proof.
  unfold JsString.ofNat. intros Heq.
  apply DecimalNat.Unsigned.to_uint_inj.
  apply (f_equal NilEmpty.uint_of_string) in Heq.
  rewrite !NilEmpty.usu in Heq. congruence.
Qed.

Lemma autoAlias_inj : Inj (=) (=) autoAlias.
Proof. intros n m Heq. unfold autoAlias in Heq. apply ofNat_inj. by injection Heq. Qed.

Lemma autoAlias_not_proto n : autoAlias n ≠ "__proto__".
Proof. unfold autoAlias. discriminate. Qed.

Lemma findIndex_first_fresh {A} (pred : A → bool) (l l' : list A) x :
  Forall (λ y, pred y = false) l → pred x = true →
  findIndex pred (l ++ x :: l') = Z.of_nat (length l).
Proof.
  intros Hl Hx. induction Hl as [|y l Hy _ IH]; simpl.
  - by rewrite Hx.
  - rewrite Hy, IH. destruct (Z.leb_spec 0 (Z.of_nat (length l))); lia.
Qed.

Lemma findIndex_none {A} (pred : A → bool) (l : list A) :
  Forall (λ y, pred y = false) l → findIndex pred l = (-1)%Z.
Proof.
  induction 1 as [|y l Hy _ IH]; simpl; [done|]. by rewrite Hy, IH.
Qed.

Lemma removeClient_head groupName e rest :
  removeClient (alias e) {| name := groupName; clients := e :: rest |}
  = (Normal true, {| name := groupName; clients := rest |}).
Proof.
  rewrite removeClient_unfold. cbn [clients findIndex]. by rewrite String.eqb_refl.
Qed.

End RegistryMore.

(** ** The constructor *)


(** X2.  Built from valid clients, the registry lists them in the given
    order, the [i]-th (from 1) under the alias "client_<i>" and the platform
    label of its class name. *)
Theorem constructor_registry groupName (cs : list PlatformClient) :
  newBroadcastGroup groupName (JsClient <$> cs)
  = Normal {| name := groupName; clients := constructed cs |}
  ∧ listClients {| name := groupName; clients := constructed cs |}
    = imap (λ i c, (autoAlias (i + 1), platformOf c)) cs
  ∧ aliases {| name := groupName; clients := constructed cs |}
    = autoAlias <$> seq 1 (length cs).
Proof.
  split; [|split].
  - unfold newBroadcastGroup. rewrite forEach_addClient_valid. simpl.
    unfold constructed. do 2 f_equal.
  - unfold listClients, constructed. simpl. by rewrite fmap_imap.
  - apply constructed_aliases.
Qed.

(** X3.  The aliases the constructor generates are pairwise distinct, and
    none of them is "__proto__" or empty: a group that is only constructed
    has one [results] slot per client. *)
Theorem constructor_aliases_distinct groupName (cs : list PlatformClient) this :
  newBroadcastGroup groupName (JsClient <$> cs) = Normal this →
  NoDup (aliases this) ∧ ("__proto__" ∉ aliases this) ∧ ("" ∉ aliases this).
Proof.
  unfold newBroadcastGroup. rewrite forEach_addClient_valid. simpl.
  intros [= <-]. unfold aliases. simpl.
  fold (constructed cs). rewrite constructed_aliases.
  split; [|split].
  - pose proof autoAlias_inj as Hinj. apply (NoDup_fmap_2 autoAlias), NoDup_seq.
  - intros (n & Hn & _)%list_elem_of_fmap. by apply (autoAlias_not_proto n).
  - intros (n & Hn & _)%list_elem_of_fmap. unfold autoAlias in Hn. discriminate.
Qed.

(** The "alerts" group of two. *)
Lemma constructor_aliases_distinct_witness :
  NoDup (aliases Scenario.alerts) ∧ ("__proto__" ∉ aliases Scenario.alerts)
  ∧ ("" ∉ aliases Scenario.alerts).
Proof.
  exact (constructor_aliases_distinct "alerts" [Scenario.discord; Scenario.slack]
           Scenario.alerts eq_refl).
Defined.

(** ** Adding and removing *)

(** X4.  Generated aliases can collide after a removal: in a group
    constructed from two or more clients, removing "client_1" and then adding
    a client without an alias gives the newcomer the alias of the last
    client, so two entries share it. *)
Theorem autoAlias_collides_after_removal groupName (cs : list PlatformClient) c :
  (2 ≤ length cs)%nat →
  ∃ this1 this2,
    removeClient (autoAlias 1) {| name := groupName; clients := constructed cs |}
    = (Normal true, this1)
    ∧ addClient (JsClient c) None this1 = (Normal tt, this2)
    ∧ aliases this2 = (autoAlias <$> seq 2 (length cs - 1)) ++ [autoAlias (length cs)]
    ∧ ¬ NoDup (aliases this2).
Proof.
  intros Hlen. destruct cs as [|c1 cs]; [simpl in Hlen; lia|].
  assert (1 ≤ length cs)%nat as Hlen' by (simpl in Hlen; lia).
  set (rest := imap (λ i c', {| client := c'; alias := autoAlias (i + 2);
                               platform := platformOf c' |}) cs).
  assert (constructed (c1 :: cs)
          = {| client := c1; alias := autoAlias 1; platform := platformOf c1 |} :: rest)
    as Hcs.
  { unfold constructed. rewrite imap_cons. f_equal.
    apply imap_ext. intros i c' _. simpl. do 2 f_equal. lia. }
  assert (alias <$> rest = autoAlias <$> seq 2 (length cs)) as Hrest.
  { unfold rest. rewrite fmap_imap. rewrite (imap_ext _ (λ i _, autoAlias (2 + i))).
    - by rewrite imap_seq.
    - intros i c' _. simpl. f_equal. lia. }
  set (this1 := {| name := groupName; clients := rest |}).
  exists this1, {| name := groupName; clients := rest ++ [entryFor this1 c None] |}.
  assert (aliases {| name := groupName; clients := rest ++ [entryFor this1 c None] |}
          = (autoAlias <$> seq 2 (length cs)) ++ [autoAlias (S (length cs))]) as Haliases.
  { unfold aliases. simpl. rewrite fmap_app, Hrest. simpl. unfold autoAlias, rest.
    rewrite length_imap. do 4 f_equal. lia. }
  split; [|split; [|split]].
  - rewrite Hcs. by apply removeClient_head.
  - apply (addClient_accepts this1 (JsClient c) c None eq_refl).
  - rewrite Haliases. simpl. by rewrite Nat.sub_0_r.
  - rewrite Haliases. intros Hnodup. apply NoDup_app in Hnodup as (_ & Hdisj & _).
    apply (Hdisj (autoAlias (S (length cs)))); [|by left].
    apply list_elem_of_fmap. exists (S (length cs)). split; [done|].
    apply elem_of_seq. lia.
Qed.

(** Three clients: the fourth alias handed out is "client_3" again. *)
Lemma autoAlias_collides_after_removal_witness :
  ∃ this1 this2,
    removeClient "client_1"
      {| name := "alerts";
         clients := constructed [Scenario.discord; Scenario.slack; Scenario.pool] |}
    = (Normal true, this1)
    ∧ addClient (JsClient Scenario.relay) None this1 = (Normal tt, this2)
    ∧ aliases this2 = ["client_2"; "client_3"; "client_3"].
Proof.
  destruct (autoAlias_collides_after_removal "alerts"
              [Scenario.discord; Scenario.slack; Scenario.pool] Scenario.relay)
    as (this1 & this2 & Hremove & Hadd & Haliases & _).
  - simpl. lia.
  - exists this1, this2. split; [exact Hremove|]. split; [exact Hadd|exact Haliases].
Defined.

(** X5.  Registering a client under a fresh, non-empty alias and removing
    that alias again gives back the group as it was: [removeClient] finds the
    newcomer, not an older entry. *)
Theorem addClient_removeClient_roundtrip this c (a : string) :
  a ≠ "" → a ∉ aliases this →
  (addClient (JsClient c) (Some a);; removeClient a) this = (Normal true, this).
Proof.
  intros Hne Hfresh. unfold mbind at 1. unfold Method_bind.
  rewrite (addClient_accepts this (JsClient c) c (Some a) eq_refl).
  rewrite removeClient_unfold. cbv zeta. cbn [clients].
  assert (alias (entryFor this c (Some a)) = a) as Halias.
  { simpl. by destruct (String.eqb_spec a ""). }
  assert (Forall (λ e, String.eqb (alias e) a = false) (clients this)) as Hothers.
  { apply Forall_forall. intros e He. apply String.eqb_neq. intros Heq.
    apply Hfresh. unfold aliases. apply list_elem_of_fmap. by exists e. }
  rewrite (findIndex_first_fresh _ _ [] _ Hothers) by (rewrite Halias; apply String.eqb_refl).
  destruct (Z.leb_spec 0 (Z.of_nat (length (clients this)))); [|lia].
  rewrite Nat2Z.id, delete_middle, app_nil_r. by destruct this.
Qed.

(** On "alerts", under the alias "ops". *)
Lemma addClient_removeClient_roundtrip_witness :
  (addClient (JsClient Scenario.pool) (Some "ops");; removeClient "ops") Scenario.alerts
  = (Normal true, Scenario.alerts).
Proof.
  apply addClient_removeClient_roundtrip.
  - discriminate.
  - refine (bool_decide_unpack _ _). vm_compute. exact I.
Defined.

(** X6.  [removeClient(a)] touches nothing but one entry aliased [a]:
    the entries under every other alias stay, in their order, and the number
    of entries under [a] drops by one (or stays 0). *)
Theorem removeClient_keeps_others this (a : string) :
  ∃ removed this',
    removeClient a this = (Normal removed, this')
    ∧ name this' = name this
    ∧ filter (λ e, alias e ≠ a) (clients this') = filter (λ e, alias e ≠ a) (clients this)
    ∧ aliasCount a this' = aliasCount a this - 1
    ∧ (removed = false ↔ aliasCount a this = 0).
Proof.
  rewrite removeClient_unfold. cbv zeta.
  set (pred := λ e, String.eqb (alias e) a).
  destruct (Z.leb_spec 0 (findIndex pred (clients this))) as [Hge|Hlt].
  - destruct (findIndex_found pred _ Hge) as (before & e & after & Hsplit & He & Hbefore & Hlen).
    apply String.eqb_eq in He.
    assert (filter (λ e', alias e' = a) before = []) as Hnone.
    { clear -Hbefore. induction Hbefore as [|e' l He' _ IH]; [done|].
      rewrite filter_cons. apply String.eqb_neq in He'.
      by destruct (decide (alias e' = a)). }
    eexists true, _. split; [reflexivity|]. cbn [name clients].
    rewrite Hlen, Hsplit, delete_middle. unfold aliasCount. cbn [clients].
    rewrite Hsplit, !filter_app, !filter_cons, !length_app.
    destruct (decide (alias e ≠ a)) as [?|_]; [done|].
    destruct (decide (alias e = a)) as [_|?]; [|done].
    rewrite Hnone. simpl. split; [done|]. split; [done|]. split; [lia|].
    split; [done|]. intros Hzero. lia.
  - eexists false, this. split; [reflexivity|]. split; [done|]. split; [done|].
    assert (Forall (λ y, pred y = false) (clients this)) as Hall.
    { apply findIndex_missing. lia. }
    assert (aliasCount a this = 0) as ->; [|done].
    unfold aliasCount. clear Hlt. induction Hall as [|e l He _ IH]; [done|].
    rewrite filter_cons. apply String.eqb_neq in He. by destruct (decide (alias e = a)).
Qed.

(** * Further properties of the dispatch *)

Section DispatchMore.
Implicit Types (this : BroadcastGroup) (e : ClientEntry) (order : list nat).

Lemma catchClause_calls {V} cs k (mk : option string → V) err :
  calls (catchClause cs k mk err) = cs.
Proof. unfold catchClause. by destruct (readMessage err). Qed.

Lemma broadcastTask_calls message options e :
  calls (broadcastTask message options e) = [CallSend message (Some options)].
Proof.
  unfold broadcastTask.
  destruct (send (client e) message (Some options)) as [err|[result|err|]];
    simpl; by rewrite ?catchClause_calls.
Qed.

Lemma broadcastEmbedTask_calls embed e :
  calls (broadcastEmbedTask embed e) = [embedCall embed e].
Proof.
  unfold broadcastEmbedTask, embedCall. destruct (sendEmbed (client e)) as [f|].
  - destruct (f embed) as [err|[result|err|]]; simpl; by rewrite ?catchClause_calls.
  - destruct (send (client e) _ None) as [err|[result|err|]];
      simpl; by rewrite ?catchClause_calls.
Qed.

Lemma testConnectionsTask_calls e :
  calls (testConnectionsTask e) = [probeCall e].
Proof.
  unfold testConnectionsTask, probeCall.
  destruct (testConnection (client e)) as [[err|[b|err|]]|];
    simpl; rewrite ?catchClause_calls; try done.
  destruct (send (client e) _ None) as [err|[result|err|]];
    simpl; by rewrite ?catchClause_calls.
Qed.

(** When every task makes one call, the trace is one call per client, in
    the order of the registry. *)
Lemma trace_one_call {V} (task : ClientEntry → Task V) (call : ClientEntry → Call) cs :
  (∀ e, calls (task e) = [call e]) →
  trace (task <$> cs) = imap (λ i e, (i, call e)) cs.
Proof.
  intros Hone. unfold trace.
  assert (∀ f : nat → nat,
            mjoin (imap (λ i t, pair (f i) <$> calls t) (task <$> cs))
            = imap (λ i e, (f i, call e)) cs) as Hgen.
  { induction cs as [|e cs IH]; intros f; [done|].
    csimpl. rewrite Hone. csimpl. f_equal. apply (IH (f ∘ S)). }
  apply (Hgen id).
Qed.

Lemma completion_settled_broadcastTask message options e :
  isSettled (completion (broadcastTask message options e)) = true
  ↔ send (client e) message (Some options) ≠ Returned Pending.
Proof.
  unfold broadcastTask.
  destruct (send (client e) message (Some options)) as [err|[result|err|]]; simpl;
    rewrite ?catchClause_settled; (split; [done | intros H; try done; by destruct H]).
Qed.

Lemma holds_collect {V} order (tasks : list (Task V)) k v :
  holds (collect order tasks) k v →
  ∃ i task, i ∈ order ∧ tasks !! i = Some task ∧ assignment task = Some (k, v).
Proof.
  rewrite collect_assignAll.
  intros [Hin | Hempty]%holds_assignAll; [|by apply holds_emptyObject in Hempty].
  by apply elem_of_assignments.
Qed.










(** The calls made on the client registered at index [i]. *)
Lemma dispatch_calls_lookup this embed order i e :
  clients this !! i = Some e →
  (∀ message options call,
     (i, call) ∈ invocations (broadcast message options order this)
     ↔ call = CallSend message (Some (default ∅ options)))
  ∧ (∀ call, (i, call) ∈ invocations (broadcastEmbed embed order this)
             ↔ call = embedCall embed e)
  ∧ (∀ call, (i, call) ∈ invocations (testConnections order this) ↔ call = probeCall e).
Proof.
  intros He.
  assert (∀ {V} (task : ClientEntry → Task V) (one : ClientEntry → Call) call,
            (∀ e', calls (task e') = [one e']) →
            (i, call) ∈ trace (task <$> clients this) ↔ call = one e) as Hone.
  { intros V task one call Hcalls. rewrite elem_of_trace, list_lookup_fmap, He. simpl.
    split.
    - intros (t & [= <-] & Hin). rewrite Hcalls in Hin.
      by apply list_elem_of_singleton in Hin.
    - intros ->. eexists. split; [done|]. rewrite Hcalls. by left. }
  split; [|split].
  - intros message options call. simpl.
    apply (Hone _ _ (λ _, CallSend message (Some (default ∅ options)))).
    intros e'. apply broadcastTask_calls.
  - intros call. simpl. apply Hone, broadcastEmbedTask_calls.
  - intros call. simpl. apply Hone, testConnectionsTask_calls.
Qed.

Lemma broadcastEmbed_fallback_call this embed order i e call :
  clients this !! i = Some e → sendEmbed (client e) = None →
  (i, call) ∈ invocations (broadcastEmbed embed order this)
  ↔ call = CallSend (MessageText ("**" +:+ title embed +:+ "**" +:+ JsString.newline
                                  +:+ description embed)) None.
Proof.
  intros He Hnone.
  destruct (dispatch_calls_lookup this embed order i e He) as (_ & Hembed & _).
  rewrite Hembed. unfold embedCall. by rewrite Hnone.
Qed.

End DispatchMore.

(** X7.  Each dispatch calls every registered client exactly once, in
    registration order, through the one method its capabilities select,
    whatever the other clients answer and in whatever order they settle:
    [broadcast] calls [send(message, options)] with [options] defaulted to
    [{}]; [broadcastEmbed] calls [sendEmbed(embed)] or else [send] with the
    plain text; [testConnections] calls [testConnection()] or else
    [send("Test")]. *)
Theorem dispatch_calls_each_client_once this message options embed order :
  invocations (broadcast message options order this)
  = imap (λ i _, (i, CallSend message (Some (default ∅ options)))) (clients this)
  ∧ invocations (broadcastEmbed embed order this)
    = imap (λ i e, (i, embedCall embed e)) (clients this)
  ∧ invocations (testConnections order this)
    = imap (λ i e, (i, probeCall e)) (clients this).
Proof.
  split; [|split]; simpl.
  - apply (trace_one_call _ (λ _, CallSend message (Some (default ∅ options)))).
    intros e. apply broadcastTask_calls.
  - apply trace_one_call, broadcastEmbedTask_calls.
  - apply trace_one_call, testConnectionsTask_calls.
Qed.

(** X8.  [broadcast] settles exactly when every per-client [send] does:
    it fulfills when no returned promise stays pending (a [send] that throws
    counts as settled), and stays pending for ever as soon as one does; there
    is no timeout of its own. *)
Theorem broadcast_waits_for_every_client this message options order :
  (Forall (λ e, send (client e) message (Some (default ∅ options)) ≠ Returned Pending)
     (clients this) →
   ∃ summary, promise (broadcast message options order this) = Fulfilled summary
              ∧ totalClients summary = size_ this)
  ∧ (Exists (λ e, send (client e) message (Some (default ∅ options)) = Returned Pending)
       (clients this) →
     promise (broadcast message options order this) = Pending).
Proof.
  set (opts := default ∅ options).
  split.
  - intros Hall.
    exists {| groupName := name this; totalClients := length (clients this);
              results := collect order (broadcastTask message opts <$> clients this) |}.
    split; [|reflexivity].
    unfold broadcast. cbn [promise]. fold opts.
    rewrite allSettled_fulfills; [reflexivity|].
    apply Forall_fmap, Forall_fmap. eapply Forall_impl; [exact Hall|].
    intros e He. simpl. by apply completion_settled_broadcastTask.
  - intros Hex. unfold broadcast, allSettled. cbn [promise]. fold opts.
    assert (forallb isSettled (completion <$> (broadcastTask message opts <$> clients this))
            = false) as ->; [|done].
    apply not_true_is_false. intros Hall.
    apply Exists_exists in Hex as (e & He & Hpending).
    rewrite forallb_forall in Hall.
    specialize (Hall (completion (broadcastTask message opts e))).
    rewrite completion_settled_broadcastTask in Hall. apply Hall; [|done].
    apply list_elem_of_In. apply list_elem_of_fmap. eexists. split; [done|].
    apply list_elem_of_fmap. by eexists.
Qed.



(** X10.  Under a shared alias the last client to settle wins: whatever
    the task that resumes last assigns is what the summary reads under its
    alias. *)
Theorem broadcast_last_settled_wins this message options order i e summary r :
  clients this !! i = Some e →
  assignment (broadcastTask message (default ∅ options) e) = Some (alias e, r) →
  promise (broadcast message options (order ++ [i]) this) = Fulfilled summary →
  get (results summary) (alias e) = Some r.
Proof.
  intros He Hassign Hsummary. apply broadcast_fulfilled in Hsummary. subst summary.
  cbn [results]. rewrite collect_assignAll. unfold assignments.
  rewrite omap_app. simpl. rewrite list_lookup_fmap, He. simpl. rewrite Hassign. simpl.
  rewrite assignAll_snoc. apply get_assign_eq.
Qed.

(** The twins share "ops": the one that settles last is the one reported. *)
Lemma broadcast_last_settled_wins_witness :
  (∃ summary,
     promise (broadcast (MessageText "hi") None [0; 1] Scenario.twins) = Fulfilled summary
     ∧ BroadcastResult.success <$> get (results summary) "ops" = Some false)
  ∧ (∃ summary,
       promise (broadcast (MessageText "hi") None [1; 0] Scenario.twins) = Fulfilled summary
       ∧ BroadcastResult.success <$> get (results summary) "ops" = Some true).
Proof.
  split; eexists; (split; [reflexivity|]).
  - exact (f_equal (fmap BroadcastResult.success)
             (broadcast_last_settled_wins Scenario.twins (MessageText "hi") None [0] 1
                _ _ _ eq_refl eq_refl eq_refl)).
  - exact (f_equal (fmap BroadcastResult.success)
             (broadcast_last_settled_wins Scenario.twins (MessageText "hi") None [1] 0
                _ _ _ eq_refl eq_refl eq_refl)).
Defined.

(** X11.  A summary never reports more than there is: every key of
    [results] is the alias of a registered client, and the number of entries
    is at most [totalClients]. *)
Theorem broadcast_entries_are_registered this message options order summary :
  promise (broadcast message options order this) = Fulfilled summary →
  (∀ k r, holds (results summary) k r → k ∈ aliases this)
  ∧ (size (own (results summary)) ≤ totalClients summary)%nat.
Proof.
  intros Hsummary. apply broadcast_fulfilled in Hsummary. subst summary. cbn [results totalClients].
  assert (∀ k r, holds (collect order (broadcastTask message (default ∅ options)
                                          <$> clients this)) k r → k ∈ aliases this) as Hkeys.
  { intros k r (i & task & _ & Htask & Hassign)%holds_collect.
    rewrite list_lookup_fmap in Htask.
    destruct (clients this !! i) as [e|] eqn:He; [|done]. injection Htask as <-.
    apply broadcastTask_key in Hassign as ->.
    apply list_elem_of_fmap. exists e. split; [done|]. by eapply list_elem_of_lookup_2. }
  split; [done|].
  rewrite <- length_map_to_list, <- (length_fmap fst).
  rewrite <- (length_fmap alias (clients this)).
  apply submseteq_length, NoDup_submseteq; [apply NoDup_fst_map_to_list|].
  intros k ([k' r] & -> & Hin)%list_elem_of_fmap.
  apply elem_of_map_to_list in Hin. apply (Hkeys k' r). by left.
Qed.

(** On the twins: one entry for two clients. *)
Lemma broadcast_entries_are_registered_witness :
  ∃ summary,
    promise (broadcast (MessageText "hi") None [0; 1] Scenario.twins) = Fulfilled summary
    ∧ (size (own (results summary)) ≤ 2)%nat.
Proof.
  eexists. split; [reflexivity|].
  exact (proj2 (broadcast_entries_are_registered Scenario.twins (MessageText "hi") None
                  [0; 1] _ eq_refl)).
Defined.

(** X12.  A client whose [send] fails with [null] or [undefined] is
    missing from the summary: reading [err.message] throws inside the [catch]
    clause, so its task assigns nothing (and its own promise rejects, which
    [Promise.allSettled] absorbs); when no other entry shares its alias,
    [results] holds nothing under it. *)
Theorem broadcast_unreadable_failure_unreported this message options order i e err failure :
  clients this !! i = Some e →
  (send (client e) message (Some (default ∅ options)) = Returned (Rejected err)
   ∨ send (client e) message (Some (default ∅ options)) = Threw err) →
  readMessage err = Throw failure →
  assignment (broadcastTask message (default ∅ options) e) = None
  ∧ completion (broadcastTask message (default ∅ options) e) = Rejected failure
  ∧ (∀ reason, promise (broadcast message options order this) ≠ Rejected reason)
  ∧ (∀ summary,
       aliasUniqueAt this i →
       promise (broadcast message options order this) = Fulfilled summary →
       ∀ r, ¬ holds (results summary) (alias e) r).
Proof.
  intros He Hsend Hread.
  assert (broadcastTask message (default ∅ options) e
          = {| calls := [CallSend message (Some (default ∅ options))];
               assignment := None; completion := Rejected failure |}) as Htask.
  { unfold broadcastTask. destruct Hsend as [-> | ->]; unfold catchClause; by rewrite Hread. }
  rewrite Htask. split; [done|]. split; [done|]. split.
  { intros reason. unfold broadcast. cbn [promise]. apply await_allSettled_never_rejects. }
  intros summary Huniq Hsummary r Hholds.
  apply broadcast_fulfilled in Hsummary. subst summary. cbn [results] in Hholds.
  apply holds_collect in Hholds as (j & task & _ & Hj & Hassign).
  rewrite list_lookup_fmap in Hj.
  destruct (clients this !! j) as [e'|] eqn:He'; [|done]. injection Hj as <-.
  assert (j = i) as ->.
  { eapply Huniq; [exact He|exact He'|]. symmetry. by eapply broadcastTask_key. }
  rewrite He in He'. injection He' as <-. by rewrite Htask in Hassign.
Qed.

(** The "silent" group: its one client rejects with [null]. *)
Lemma broadcast_unreadable_failure_unreported_witness :
  ∃ summary,
    promise (broadcast (MessageText "hi") None [0] Scenario.silent) = Fulfilled summary
    ∧ totalClients summary = 1
    ∧ ∀ r, ¬ holds (results summary) "client_1" r.
Proof.
  eexists. split; [reflexivity|]. split; [reflexivity|].
  destruct (broadcast_unreadable_failure_unreported Scenario.silent (MessageText "hi") None [0] 0
              {| client := Scenario.mute; alias := "client_1"; platform := "mute" |}
              ThrownNull _ eq_refl (or_introl eq_refl) eq_refl) as (_ & _ & _ & Hmissing).
  apply Hmissing; [|reflexivity].
  intros j e0 e' [= <-] He' _. destruct j; [reflexivity|discriminate].
Defined.

(** X13.  A registered client that exposes [sendEmbed] is handed the
    embed itself and is not called through [send]; a fulfillment is recorded
    as a success without any note, a rejection or a thrown error as a failure
    with its message text. *)
Theorem broadcastEmbed_uses_sendEmbed this embed order i e f :
  clients this !! i = Some e →
  sendEmbed (client e) = Some f →
  (∀ call, (i, call) ∈ invocations (broadcastEmbed embed order this)
           ↔ call = CallSendEmbed embed)
  ∧ (∀ result,
       f embed = Returned (Fulfilled result) →
       assignment (broadcastEmbedTask embed e)
       = Some (alias e,
               {| BroadcastResult.success := true;
                  BroadcastResult.platform := platform e;
                  BroadcastResult.result := Some result;
                  BroadcastResult.error := None;
                  BroadcastResult.note := None |}))
  ∧ (∀ err text,
       f embed = Returned (Rejected err) ∨ f embed = Threw err →
       readMessage err = Normal text →
       assignment (broadcastEmbedTask embed e)
       = Some (alias e,
               {| BroadcastResult.success := false;
                  BroadcastResult.platform := platform e;
                  BroadcastResult.result := None;
                  BroadcastResult.error := text;
                  BroadcastResult.note := None |})).
Proof.
  intros He Hf. split; [|split].
  - intros call.
    destruct (dispatch_calls_lookup this embed order i e He) as (_ & Hembed & _).
    rewrite Hembed. unfold embedCall. by rewrite Hf.
  - intros result Hresult. unfold broadcastEmbedTask. by rewrite Hf, Hresult.
  - intros err text Herr Hread. unfold broadcastEmbedTask. rewrite Hf.
    destruct Herr as [-> | ->]; unfold catchClause; by rewrite Hread.
Qed.

(** The first client of "studio". *)
Lemma broadcastEmbed_uses_sendEmbed_witness :
  ∃ summary,
    promise (broadcastEmbed {| title := "Deploy"; description := "ok"; color := None |}
               [0; 1] Studio.studio) = Fulfilled summary
    ∧ (BroadcastResult.note <$> get (results summary) "client_1") = Some None
    ∧ ((0, CallSendEmbed {| title := "Deploy"; description := "ok"; color := None |})
       ∈ invocations (broadcastEmbed {| title := "Deploy"; description := "ok"; color := None |}
                        [0; 1] Studio.studio)).
Proof.
  eexists. split; [reflexivity|]. split; [reflexivity|].
  by apply (broadcastEmbed_uses_sendEmbed Studio.studio
              {| title := "Deploy"; description := "ok"; color := None |} [0; 1] 0
              {| client := Studio.rich; alias := "client_1"; platform := "rich" |}
              _ eq_refl eq_refl).
Defined.

(** X14.  A registered client that exposes [testConnection] is probed
    through it and not through [send]: the boolean it fulfills with becomes
    [connected], a rejection or a thrown error becomes [connected = false]
    with its message text as [error]. *)
Theorem testConnections_uses_testConnection this order i e probe :
  clients this !! i = Some e →
  testConnection (client e) = Some probe →
  (∀ call, (i, call) ∈ invocations (testConnections order this) ↔ call = CallTestConnection)
  ∧ (∀ connected,
       probe = Returned (Fulfilled connected) →
       assignment (testConnectionsTask e)
       = Some (alias e,
               {| TestConnectionResult.platform := platform e;
                  TestConnectionResult.connected := connected;
                  TestConnectionResult.error := None |}))
  ∧ (∀ err text,
       probe = Returned (Rejected err) ∨ probe = Threw err →
       readMessage err = Normal text →
       assignment (testConnectionsTask e)
       = Some (alias e,
               {| TestConnectionResult.platform := platform e;
                  TestConnectionResult.connected := false;
                  TestConnectionResult.error := text |})).
Proof.
  intros He Hprobe. split; [|split].
  - intros call.
    destruct (dispatch_calls_lookup this {| title := ""; description := ""; color := None |}
                order i e He) as (_ & _ & Htest).
    rewrite Htest. unfold probeCall. by rewrite Hprobe.
  - intros connected ->. unfold testConnectionsTask. by rewrite Hprobe.
  - intros err text Herr Hread. unfold testConnectionsTask. rewrite Hprobe.
    destruct Herr as [-> | ->]; unfold catchClause; by rewrite Hread.
Qed.

(** The first client of "studio" answers [false]. *)
Lemma testConnections_uses_testConnection_witness :
  ∃ results,
    promise (testConnections [0; 1] Studio.studio) = Fulfilled results
    ∧ get results "client_1"
      = Some {| TestConnectionResult.platform := "rich";
                TestConnectionResult.connected := false;
                TestConnectionResult.error := None |}
    ∧ ((0, CallTestConnection) ∈ invocations (testConnections [0; 1] Studio.studio)).
Proof.
  eexists. split; [reflexivity|]. split; [reflexivity|].
  by apply (testConnections_uses_testConnection Studio.studio [0; 1] 0
              {| client := Studio.rich; alias := "client_1"; platform := "rich" |}
              _ eq_refl eq_refl).
Defined.

(** X15.  In the [send("Test")] fallback only a rejected promise is
    mapped silently to [connected = false]: when [send] throws before
    returning a promise, the outer [catch] records [connected = false]
    together with the message text, and if that text cannot be read (the
    value thrown is [null] or [undefined]) nothing is recorded at all. *)
Theorem testConnections_fallback_send_throws this order i e err :
  clients this !! i = Some e →
  testConnection (client e) = None →
  send (client e) (MessageText "Test") None = Threw err →
  (∀ text,
     readMessage err = Normal text →
     assignment (testConnectionsTask e)
     = Some (alias e,
             {| TestConnectionResult.platform := platform e;
                TestConnectionResult.connected := false;
                TestConnectionResult.error := text |})
     ∧ completion (testConnectionsTask e) = Fulfilled tt)
  ∧ (∀ failure,
       readMessage err = Throw failure →
       assignment (testConnectionsTask e) = None
       ∧ completion (testConnectionsTask e) = Rejected failure)
  ∧ (∀ reason, promise (testConnections order this) ≠ Rejected reason).
Proof.
  intros He Hnone Hsend. split; [|split].
  - intros text Hread. unfold testConnectionsTask. rewrite Hnone, Hsend.
    unfold catchClause. by rewrite Hread.
  - intros failure Hread. unfold testConnectionsTask. rewrite Hnone, Hsend.
    unfold catchClause. by rewrite Hread.
  - intros reason. unfold testConnections. cbn [promise].
    apply await_allSettled_never_rejects.
Qed.

(** The second client of "studio" throws "not configured". *)
Lemma testConnections_fallback_send_throws_witness :
  ∃ results,
    promise (testConnections [0; 1] Studio.studio) = Fulfilled results
    ∧ get results "client_2"
      = Some {| TestConnectionResult.platform := "brittle";
                TestConnectionResult.connected := false;
                TestConnectionResult.error := Some "not configured" |}
    ∧ assignment (testConnectionsTask
                    {| client := Studio.brittle; alias := "client_2"; platform := "brittle" |})
      = Some ("client_2",
              {| TestConnectionResult.platform := "brittle";
                 TestConnectionResult.connected := false;
                 TestConnectionResult.error := Some "not configured" |}).
Proof.
  eexists. split; [reflexivity|]. split; [reflexivity|].
  exact (proj1 (proj1 (testConnections_fallback_send_throws Studio.studio [0; 1] 1
                         {| client := Studio.brittle; alias := "client_2";
                            platform := "brittle" |}
                         _ eq_refl eq_refl eq_refl) _ eq_refl)).
Defined.

(** X16.  The other severity shortcuts are [broadcastEmbed] under a fixed
    prefix and color: "❌ " and 0xff0000 for errors, "⚠️ " and 0xffff00 for
    warnings, "ℹ️ " and 0x3498db for information.  A client without
    [sendEmbed] receives the prefixed title and the description as text; the
    color never reaches it. *)
Theorem severity_shortcuts this (heading body : string) order :
  broadcastError heading body order this
  = broadcastEmbed {| title := "❌ " +:+ heading; description := body;
                      color := Some 16711680%Z |} order this
  ∧ broadcastWarning heading body order this
    = broadcastEmbed {| title := "⚠️ " +:+ heading; description := body;
                        color := Some 16776960%Z |} order this
  ∧ broadcastInfo heading body order this
    = broadcastEmbed {| title := "ℹ️ " +:+ heading; description := body;
                        color := Some 3447003%Z |} order this
  ∧ (∀ i e call,
       clients this !! i = Some e → sendEmbed (client e) = None →
       ((i, call) ∈ invocations (broadcastError heading body order this)
        ↔ call = CallSend (MessageText ("**❌ " +:+ heading +:+ "**" +:+ JsString.newline
                                        +:+ body)) None)
       ∧ ((i, call) ∈ invocations (broadcastWarning heading body order this)
          ↔ call = CallSend (MessageText ("**⚠️ " +:+ heading +:+ "**" +:+ JsString.newline
                                          +:+ body)) None)
       ∧ ((i, call) ∈ invocations (broadcastInfo heading body order this)
          ↔ call = CallSend (MessageText ("**ℹ️ " +:+ heading +:+ "**" +:+ JsString.newline
                                          +:+ body)) None)
       ∧ ((i, call) ∈ invocations (broadcastSuccess heading body order this)
          ↔ call = CallSend (MessageText ("**✅ " +:+ heading +:+ "**" +:+ JsString.newline
                                          +:+ body)) None)).
Proof.
  split; [done|]. split; [done|]. split; [done|].
  intros i e call He Hnone.
  split; [|split; [|split]].
  - exact (broadcastEmbed_fallback_call this
             {| title := "❌ " +:+ heading; description := body; color := Some 16711680%Z |}
             order i e call He Hnone).
  - exact (broadcastEmbed_fallback_call this
             {| title := "⚠️ " +:+ heading; description := body; color := Some 16776960%Z |}
             order i e call He Hnone).
  - exact (broadcastEmbed_fallback_call this
             {| title := "ℹ️ " +:+ heading; description := body; color := Some 3447003%Z |}
             order i e call He Hnone).
  - exact (broadcastEmbed_fallback_call this
             {| title := "✅ " +:+ heading; description := body; color := Some 65280%Z |}
             order i e call He Hnone).
Qed.

(** * Properties of the Slack client *)

Section SlackObjects.
Import Slack.
Implicit Types (props : list (string * Value)) (k : string) (v : Value).

Lemma getProp_absent k props : k ∉ props.*1 → getProp k props = VUndefined.
Proof.
  induction props as [|[k' v'] props IH]; [done|]. csimpl.
  intros [Hne Hrest]%not_elem_of_cons.
  destruct (String.eqb_spec k' k); [congruence|]. by apply IH.
Qed.

Lemma getProp_elem_of k v props : NoDup props.*1 → (k, v) ∈ props → getProp k props = v.
Proof.
  induction props as [|[k' v'] props IH]; csimpl; [by intros _ ?%elem_of_nil|].
  intros [Hfresh Hnodup]%NoDup_cons [[= -> ->]|Hin]%elem_of_cons.
  - by rewrite String.eqb_refl.
  - destruct (String.eqb_spec k' k) as [->|_]; [|by apply IH].
    destruct Hfresh. apply list_elem_of_fmap. by exists (k, v).
Qed.

Lemma getProp_present k props : k ∈ props.*1 → (k, getProp k props) ∈ props.
Proof.
  induction props as [|[k' v'] props IH]; csimpl; [by intros ?%elem_of_nil|].
  destruct (String.eqb_spec k' k) as [->|Hne].
  - intros _. by left.
  - intros [?|Hin]%elem_of_cons; [congruence|]. right. by apply IH.
Qed.

(** In an object (distinct keys) the order of the properties does not
    matter to a lookup. *)
Lemma getProp_reverse k props : NoDup props.*1 → getProp k (reverse props) = getProp k props.
Proof.
  intros Hnodup. destruct (decide (k ∈ props.*1)) as [Hin|Hout].
  - apply getProp_elem_of.
    + by rewrite fmap_reverse, reverse_Permutation.
    + rewrite elem_of_reverse. by apply getProp_present.
  - rewrite !getProp_absent; [done|done|]. by rewrite fmap_reverse, elem_of_reverse.
Qed.

Lemma getProp_defineProp_eq k v props : getProp k (defineProp k v props) = v.
Proof.
  induction props as [|[k' v'] props IH]; simpl.
  - by rewrite String.eqb_refl.
  - destruct (String.eqb_spec k' k) as [->|Hne]; simpl.
    + by rewrite String.eqb_refl.
    + by destruct (String.eqb_spec k' k).
Qed.

Lemma getProp_defineProp_ne k k' v props :
  k' ≠ k → getProp k (defineProp k' v props) = getProp k props.
Proof.
  intros Hne. induction props as [|[k0 v0] props IH]; simpl.
  - by destruct (String.eqb_spec k' k).
  - destruct (String.eqb_spec k0 k') as [->|Hne0]; simpl.
    + by destruct (String.eqb_spec k' k).
    + by rewrite IH.
Qed.

Lemma spread_snoc literal source k v :
  spread literal (source ++ [(k, v)]) = defineProp k v (spread literal source).
Proof. unfold spread. by rewrite foldl_snoc. Qed.

Lemma objectAssign_snoc target source k v :
  objectAssign target (source ++ [(k, v)]) = setProp k v (objectAssign target source).
Proof. unfold objectAssign. by rewrite foldl_snoc. Qed.

(** A spread copies every own property of the source over the literal:
    where the source has the key, its (last) value is the result. *)
Lemma getProp_spread literal source k :
  getProp k (spread literal source)
  = if decide (k ∈ source.*1) then getProp k (reverse source) else getProp k literal.
Proof.
  induction source as [|kv source IH] using rev_ind; [done|]. destruct kv as [k' v'].
  rewrite spread_snoc, reverse_snoc, fmap_app. simpl.
  destruct (String.eqb_spec k' k) as [->|Hne].
  - rewrite getProp_defineProp_eq. rewrite decide_True; [done|].
    apply elem_of_app. right. by left.
  - rewrite getProp_defineProp_ne by done. rewrite IH.
    destruct (decide (k ∈ source.*1)) as [Hin|Hout].
    + rewrite decide_True; [done|]. apply elem_of_app. by left.
    + rewrite decide_False; [done|].
      intros [?|Heq%list_elem_of_singleton]%elem_of_app; [done|]. by subst.
Qed.

Lemma getProp_objectAssign target source k :
  k ≠ "__proto__" →
  getProp k (objectAssign target source)
  = if decide (k ∈ source.*1) then getProp k (reverse source) else getProp k target.
Proof.
  intros Hk. induction source as [|kv source IH] using rev_ind; [done|].
  destruct kv as [k' v'].
  rewrite objectAssign_snoc, reverse_snoc, fmap_app. simpl. unfold setProp.
  destruct (String.eqb_spec k' k) as [->|Hne].
  - destruct (String.eqb_spec k "__proto__"); [done|].
    rewrite getProp_defineProp_eq. rewrite decide_True; [done|].
    apply elem_of_app. right. by left.
  - assert (getProp k (if String.eqb k' "__proto__" then objectAssign target source
                       else defineProp k' v' (objectAssign target source))
            = getProp k (objectAssign target source)) as ->.
    { destruct (String.eqb k' "__proto__"); [done|]. by apply getProp_defineProp_ne. }
    rewrite IH.
    destruct (decide (k ∈ source.*1)) as [Hin|Hout].
    + rewrite decide_True; [done|]. apply elem_of_app. by left.
    + rewrite decide_False; [done|].
      intros [?|Heq%list_elem_of_singleton]%elem_of_app; [done|]. by subst.
Qed.

Lemma getProp_objectAssign_proto target source :
  getProp "__proto__" (objectAssign target source) = getProp "__proto__" target.
Proof.
  induction source as [|kv source IH] using rev_ind; [done|]. destruct kv as [k' v'].
  rewrite objectAssign_snoc. unfold setProp.
  destruct (String.eqb_spec k' "__proto__") as [->|Hne]; [done|].
  by rewrite getProp_defineProp_ne.
Qed.

Lemma getProp_filter_defined k props :
  NoDup props.*1 →
  getProp k (filter (λ kv, isUndefined kv.2 = false) props) = getProp k props.
Proof.
  induction props as [|[k' v'] props IH]; [done|]. csimpl.
  intros [Hfresh Hnodup]%NoDup_cons. rewrite filter_cons. simpl.
  destruct (decide (isUndefined v' = false)) as [Hdef|Hundef]; simpl.
  - destruct (String.eqb k' k); [done|]. by apply IH.
  - rewrite IH by done. destruct (String.eqb_spec k' k) as [->|_]; [|done].
    rewrite getProp_absent by done. by destruct v'.
Qed.

End SlackObjects.

Section SlackClientProps.
Import Slack.
Implicit Types (env : Env) (this : SlackClient).



(** X18.  When the required-field check passes but the webhook URL is
    not accepted, the constructor throws a [ConfigurationError] (code
    "CONFIGURATION_ERROR") naming the expected format, and no client
    exists. *)
Theorem newSlackClient_rejects_invalid_url env given :
  validateRequired env (resolved given) ["webhookUrl"] "Slack" = Normal tt →
  IsValidWebhookUrl env (orElse (givenWebhookUrl given) "") "slack" = false →
  ∃ err,
    newSlackClient env given = Throw (ThrownError err)
    ∧ instanceOf err ConfigurationErrorClass = true
    ∧ instanceOf err notiflyErrorClass = true
    ∧ errorCode err = Some "CONFIGURATION_ERROR"
    ∧ errorMessage err
      = "Invalid Slack webhook URL format. Expected: https://hooks.slack.com/services/...".
Proof.
  intros Hrequired Hinvalid. eexists.
  unfold newSlackClient, _validateConfig. rewrite Hrequired.
  cbn [webhookUrl resolved]. rewrite Hinvalid. by repeat split.
Qed.

(** A Discord URL given to the Slack client. *)
Lemma newSlackClient_rejects_invalid_url_witness :
  ∃ err,
    newSlackClient SlackScenario.env
      {| givenWebhookUrl := Some "https://discord.com/api/webhooks/1/x";
         givenUsername := None; givenIconEmoji := None; givenIconUrl := None;
         givenChannel := None; givenDefaultColor := None; givenTimeout := None |}
    = Throw (ThrownError err)
    ∧ instanceOf err ConfigurationErrorClass = true.
Proof.
  destruct (newSlackClient_rejects_invalid_url SlackScenario.env
              {| givenWebhookUrl := Some "https://discord.com/api/webhooks/1/x";
                 givenUsername := None; givenIconEmoji := None; givenIconUrl := None;
                 givenChannel := None; givenDefaultColor := None; givenTimeout := None |}
              eq_refl eq_refl) as (err & Hthrow & Hclass & _).
  exists err. split; [exact Hthrow|exact Hclass].
Defined.

(** X19.  The payload of a text message is [username], then exactly one
    of [icon_url] (when the options or the configuration give a non-empty
    one) and [icon_emoji], then [channel] only when one is set, then [text];
    [attachments] and [blocks] passed in the options are not read. *)
Theorem buildPayload_text this (text : string) options :
  let icon := orElse (optIconUrl options) (iconUrl (config this)) in
  let room := orElse (optChannel options) (channel (config this)) in
  _buildPayload this (Text text) options
  = [("username", VString (orElse (optUsername options) (username (config this))))]
    ++ (if String.eqb icon ""
        then [("icon_emoji",
               VString (orElse (optIconEmoji options) (iconEmoji (config this))))]
        else [("icon_url", VString icon)])
    ++ (if String.eqb room "" then [] else [("channel", VString room)])
    ++ [("text", VString text)]
  ∧ (∀ attachments blocks,
       _buildPayload this (Text text)
         {| optUsername := optUsername options; optIconEmoji := optIconEmoji options;
            optIconUrl := optIconUrl options; optChannel := optChannel options;
            optAttachments := attachments; optBlocks := blocks |}
       = _buildPayload this (Text text) options).
Proof.
  intros icon room. split; [|done].
  unfold _buildPayload. fold icon room.
  by destruct (String.eqb icon ""), (String.eqb room "").
Qed.

(** X20.  With an object message every own property of the message ends
    up in the payload, over the defaults ([username], the icon, [channel])
    where the keys coincide; the other keys keep their defaults, and
    ["__proto__"] never becomes a key. *)
Theorem buildPayload_object_overrides this props options k :
  NoDup props.*1 →
  getProp "__proto__" (_buildPayload this (Object props) options) = VUndefined
  ∧ (k ≠ "__proto__" →
     getProp k (_buildPayload this (Object props) options)
     = if decide (k ∈ props.*1) then getProp k props
       else getProp k (_buildPayload this (Object []) options)).
Proof.
  intros Hnodup. unfold _buildPayload.
  set (base := if negb (String.eqb (orElse (optChannel options) (channel (config this))) "")
               then _ else _).
  split.
  - rewrite getProp_objectAssign_proto. unfold base.
    by destruct (String.eqb (orElse (optIconUrl options) (iconUrl (config this))) ""),
               (String.eqb (orElse (optChannel options) (channel (config this))) "").
  - intros Hk. rewrite getProp_objectAssign by done.
    by rewrite getProp_reverse.
Qed.

(** A message object that renames the sender and adds blocks. *)
Lemma buildPayload_object_overrides_witness :
  getProp "username"
    (_buildPayload SlackScenario.client
       (Object [("username", VString "deploy-bot"); ("blocks", VArray [])]) noOptions)
  = VString "deploy-bot"
  ∧ getProp "icon_emoji"
      (_buildPayload SlackScenario.client
         (Object [("username", VString "deploy-bot"); ("blocks", VArray [])]) noOptions)
    = VString ":robot_face:".
Proof.
  assert (NoDup [("username", VString "deploy-bot"); ("blocks", VArray [])].*1) as Hnodup.
  { refine (bool_decide_unpack _ _). vm_compute. exact I. }
  split.
  - exact (proj2 (buildPayload_object_overrides SlackScenario.client _ noOptions "username"
                    Hnodup) ltac:(discriminate)).
  - exact (proj2 (buildPayload_object_overrides SlackScenario.client _ noOptions "icon_emoji"
                    Hnodup) ltac:(discriminate)).
Defined.

End SlackClientProps.

Section SlackSending.
Import Slack.
Implicit Types (env : Env) (this : SlackClient).

Lemma messageSendError_readable platform original :
  ∃ err,
    messageSendError platform original = ThrownError err
    ∧ errorMessage err
      = "Failed to send message via " +:+ platform +:+ ": " +:+ renderMessage original
    ∧ instanceOf err MessageSendErrorClass = true
    ∧ instanceOf err notiflyErrorClass = true
    ∧ instanceOf err ConfigurationErrorClass = false
    ∧ errorCode err = Some "MESSAGE_SEND_ERROR"
    ∧ readMessage (messageSendError platform original) = Normal (Some (errorMessage err)).
Proof. eexists. by repeat split. Qed.

(** X21.  [send] fulfills exactly when [fetch] answers with an [ok]
    response, and then with [{success: true, platform: "slack", timestamp}]
    whatever the message and the options. *)
Theorem send_fulfills_iff_ok env this message options result :
  send env this message options = Fulfilled result
  ↔ (∃ response,
       fetch env (webhookUrl (config this))
         (VObject (_buildPayload this message (default noOptions options)))
       = Fulfilled response
       ∧ ok response = true)
    ∧ result = {| success := true; platform := "slack"; timestamp := toISOString env |}.
Proof.
  unfold send.
  destruct (fetch env _ _) as [response|error|] eqn:Hfetch.
  - destruct (ok response) eqn:Hok.
    + split.
      * intros [= <-]. split; [by exists response|done].
      * by intros [_ ->].
    + split.
      * by destruct (text response).
      * intros [(response' & [= <-] & Hok') _]. congruence.
  - split; [done|]. by intros [(response & ? & _) _].
  - split; [done|]. by intros [(response & ? & _) _].
Qed.

(** X22.  Whatever goes wrong, [send] rejects with a [MessageSendError]
    (code "MESSAGE_SEND_ERROR") whose message is "Failed to send message via
    Slack: " followed by the message of the cause, and that message can be
    read.  The cause is the rejection of [fetch], the rejection of
    [response.text()], or for a response that is not [ok] the error "Slack
    API Error: <status> - <body text>". *)
Theorem send_rejects_with_MessageSendError env this message options reason :
  send env this message options = Rejected reason →
  ∃ original err,
    reason = ThrownError err
    ∧ errorMessage err = "Failed to send message via Slack: " +:+ renderMessage original
    ∧ instanceOf err MessageSendErrorClass = true
    ∧ errorCode err = Some "MESSAGE_SEND_ERROR"
    ∧ readMessage reason = Normal (Some (errorMessage err))
    ∧ (fetch env (webhookUrl (config this))
         (VObject (_buildPayload this message (default noOptions options)))
       = Rejected original
       ∨ ∃ response,
           fetch env (webhookUrl (config this))
             (VObject (_buildPayload this message (default noOptions options)))
           = Fulfilled response
           ∧ ok response = false
           ∧ (text response = Rejected original
              ∨ ∃ errorText,
                  text response = Fulfilled errorText
                  ∧ original
                    = ThrownError (newError ("Slack API Error: "
                                             +:+ JsString.ofNat (status response)
                                             +:+ " - " +:+ errorText)))).
Proof.
  unfold send.
  destruct (fetch env _ _) as [response|error|] eqn:Hfetch; [|intros [= <-]|done].
  - destruct (ok response) eqn:Hok; [done|].
    destruct (text response) as [errorText|error|] eqn:Htext; [| |done]; intros [= <-].
    + destruct (messageSendError_readable "Slack"
                  (ThrownError (newError ("Slack API Error: "
                                          +:+ JsString.ofNat (status response)
                                          +:+ " - " +:+ errorText))))
        as (err & Herr & Hmessage & Hclass & _ & _ & Hcode & Hread).
      eexists _, err. split; [exact Herr|]. split; [exact Hmessage|].
      split; [done|]. split; [done|]. split; [exact Hread|].
      right. exists response. split; [done|]. split; [done|]. right. by exists errorText.
    + destruct (messageSendError_readable "Slack" error)
        as (err & Herr & Hmessage & Hclass & _ & _ & Hcode & Hread).
      exists error, err. split; [exact Herr|]. split; [exact Hmessage|].
      split; [done|]. split; [done|]. split; [exact Hread|].
      right. exists response. split; [done|]. split; [done|]. by left.
  - destruct (messageSendError_readable "Slack" error)
      as (err & Herr & Hmessage & Hclass & _ & _ & Hcode & Hread).
    exists error, err. split; [exact Herr|]. split; [exact Hmessage|].
    split; [done|]. split; [done|]. split; [exact Hread|]. by left.
Qed.

(** The revoked webhook answers 404 "no_service". *)
Lemma send_rejects_with_MessageSendError_witness :
  ∃ err,
    send SlackScenario.env SlackScenario.revoked (Text "hi") None = Rejected (ThrownError err)
    ∧ errorMessage err
      = "Failed to send message via Slack: Slack API Error: 404 - no_service".
Proof.
  destruct (send_rejects_with_MessageSendError SlackScenario.env SlackScenario.revoked
              (Text "hi") None _ eq_refl)
    as (original & err & Hreason & Hmessage & _).
  exists err. injection Hreason as <-. split; reflexivity.
Defined.

(** X23.  [testConnection] never rejects: it fulfills with [true] exactly
    when its test [send] fulfills, with [false] exactly when that [send]
    rejects, and stays pending only while that [send] does. *)
Theorem testConnection_never_rejects env this :
  let probe := send env this (Text "ZNotify connection test successful! 🚀") None in
  (∀ reason, testConnection env this ≠ Rejected reason)
  ∧ (testConnection env this = Fulfilled true ↔ ∃ result, probe = Fulfilled result)
  ∧ (testConnection env this = Fulfilled false ↔ ∃ reason, probe = Rejected reason)
  ∧ (testConnection env this = Pending ↔ probe = Pending).
Proof.
  intros probe. unfold testConnection. fold probe.
  destruct probe as [result|reason|]; repeat split; try done;
    try (intros [? ?]; done); eauto.
Qed.

Lemma length_append (a b : string) :
  String.length (a +:+ b) = (String.length a + String.length b)%nat.
Proof. induction a as [|c a IH]; [done|]. rewrite append_cons. simpl. by rewrite IH. Qed.

Lemma length_zeros k : String.length (zeros k) = k.
Proof. induction k as [|k IH]; [done|]. simpl. by rewrite IH. Qed.

Lemma parseHex_zeros k digits : parseHex (zeros k +:+ digits) = parseHex digits.
Proof.
  induction k as [|k IH]; [done|].
  change (zeros (S k) +:+ digits) with (String (Ascii.ascii_of_nat 48) (zeros k +:+ digits)).
  unfold parseHex in *. simpl.
  destruct (HexadecimalString.NilEmpty.uint_of_string (zeros k +:+ digits)) as [d|];
    destruct (HexadecimalString.NilEmpty.uint_of_string digits) as [d'|];
    simpl in *; congruence.
Qed.

Lemma parseHex_toString16 p : parseHex (toString16 (Zpos p)) = Some (Zpos p).
Proof.
  unfold parseHex, toString16. rewrite HexadecimalString.NilEmpty.usu. simpl.
  by rewrite HexadecimalPos.Unsigned.of_to.
Qed.

(** X24.  A positive embed color becomes "#" followed by its lower-case
    hexadecimal digits, padded with zeros to six digits at least, and these
    digits read back as the color; no color and the color 0 (black) both
    give the configured default color. *)
Theorem colorHex_digits this embedOptions :
  (∀ c, color embedOptions = Some c → (0 < c)%Z →
        ∃ digits,
          colorHex this embedOptions = "#" +:+ digits
          ∧ (6 ≤ String.length digits)%nat
          ∧ parseHex digits = Some c)
  ∧ (color embedOptions = None ∨ color embedOptions = Some 0%Z →
     colorHex this embedOptions = defaultColor (config this)).
Proof.
  split.
  - intros c Hc Hpos. unfold colorHex. rewrite Hc.
    destruct c as [|p|p]; [lia| |lia]. simpl.
    exists (padStart0 6 (toString16 (Z.pos p))). split; [done|]. split.
    + unfold padStart0. rewrite length_append, length_zeros. lia.
    + unfold padStart0. by rewrite parseHex_zeros, parseHex_toString16.
  - unfold colorHex. by intros [-> | ->].
Qed.

End SlackSending.

Section SlackAttachments.
Import Slack.
Implicit Types (env : Env) (this : SlackClient).

Lemma getProp_attachmentWithDefaults env this attachment k :
  NoDup attachment.*1 →
  getProp k (attachmentWithDefaults env this attachment)
  = if decide (k ∈ attachment.*1) then getProp k attachment
    else if String.eqb k "color" then VString (defaultColor (config this))
    else if String.eqb k "ts" then VNumber (dateNow env / 1000)
    else VUndefined.
Proof.
  intros Hnodup. unfold attachmentWithDefaults. rewrite getProp_spread.
  destruct (decide (k ∈ attachment.*1)) as [Hin|Hout]; [by apply getProp_reverse|].
  cbn [getProp]. rewrite (String.eqb_sym "color" k), (String.eqb_sym "ts" k).
  destruct (String.eqb_spec k "color") as [->|Hcolor].
  - by rewrite (getProp_absent "color" attachment).
  - destruct (String.eqb_spec k "ts") as [->|Hts]; [|done].
    by rewrite (getProp_absent "ts" attachment).
Qed.

(** X25.  [sendAttachment] posts one attachment in which the
    attachment's own properties always win: the default color and the
    current time are used only when the attachment has no [color] or [ts]
    key at all, so an own [color] that is empty (or [undefined]) is posted as
    it is and not replaced by the default. *)
Theorem sendAttachment_own_keys_win env this attachment :
  NoDup attachment.*1 →
  sendAttachment env this attachment
  = send env this
      (Object [("attachments", VArray [VObject (attachmentWithDefaults env this attachment)])])
      None
  ∧ getProp "color" (attachmentWithDefaults env this attachment)
    = (if decide ("color" ∈ attachment.*1) then getProp "color" attachment
       else VString (defaultColor (config this)))
  ∧ getProp "ts" (attachmentWithDefaults env this attachment)
    = (if decide ("ts" ∈ attachment.*1) then getProp "ts" attachment
       else VNumber (dateNow env / 1000))
  ∧ (∀ k, k ≠ "color" → k ≠ "ts" →
          getProp k (attachmentWithDefaults env this attachment) = getProp k attachment).
Proof.
  intros Hnodup. split; [done|]. split; [|split].
  - rewrite getProp_attachmentWithDefaults by done. by destruct (decide _).
  - rewrite getProp_attachmentWithDefaults by done. by destruct (decide _).
  - intros k Hcolor Hts. rewrite getProp_attachmentWithDefaults by done.
    destruct (decide (k ∈ attachment.*1)) as [Hin|Hout]; [done|].
    destruct (String.eqb_spec k "color"); [done|].
    destruct (String.eqb_spec k "ts"); [done|].
    by rewrite getProp_absent.
Qed.

(** An attachment whose own color is the empty string. *)
Lemma sendAttachment_own_keys_win_witness :
  getProp "color"
    (attachmentWithDefaults SlackScenario.env SlackScenario.client
       [("color", VString ""); ("title", VString "t")])
  = VString ""
  ∧ getProp "ts"
      (attachmentWithDefaults SlackScenario.env SlackScenario.client
         [("color", VString ""); ("title", VString "t")])
    = VNumber 1700000000.
Proof.
  assert (NoDup [("color", VString ""); ("title", VString "t")].*1) as Hnodup.
  { refine (bool_decide_unpack _ _). vm_compute. exact I. }
  destruct (sendAttachment_own_keys_win SlackScenario.env SlackScenario.client _ Hnodup)
    as (_ & Hcolor & Hts & _).
  split; [exact Hcolor|exact Hts].
Defined.

Lemma NoDup_fst_filter {A} (P : string * A → Prop) `{∀ x, Decision (P x)}
    (l : list (string * A)) :
  NoDup l.*1 → NoDup (filter P l).*1.
Proof.
  intros Hnodup. eapply sublist_NoDup; [exact Hnodup|].
  apply fmap_sublist, sublist_filter.
Qed.

Lemma embedAttachment_object env this embedOptions :
  NoDup (embedAttachment env this embedOptions).*1
  ∧ Forall (λ kv, isUndefined kv.2 = false) (embedAttachment env this embedOptions).
Proof.
  unfold embedAttachment. split.
  - apply NoDup_fst_filter. cbn [fmap list_fmap fst].
    refine (bool_decide_unpack _ _). vm_compute. exact I.
  - apply Forall_forall. intros kv Hin. by apply list_elem_of_filter in Hin as [? _].
Qed.

Lemma getProp_embedAttachment env this embedOptions k :
  getProp k (embedAttachment env this embedOptions)
  = getProp k
      [ ("color", VString (colorHex this embedOptions));
        ("title", ofOption (title embedOptions));
        ("title_link", ofOption (url embedOptions));
        ("text", ofOption (description embedOptions));
        ("fields",
         match fields embedOptions with
         | Some (f :: fs) =>
             VArray ((λ f, VObject [ ("title", VString (fieldName f));
                                     ("value", VString (fieldValue f));
                                     ("short", VBool (default false (fieldInline f))) ])
                       <$> f :: fs)
         | _ => VUndefined
         end);
        ("footer", ofOption (fst <$> footer embedOptions));
        ("footer_icon", ofOption (footer embedOptions ≫= snd));
        ("author_name", ofOption ((λ a, a.1.1) <$> author embedOptions));
        ("author_link", ofOption (author embedOptions ≫= (λ a, a.1.2)));
        ("author_icon", ofOption (author embedOptions ≫= snd));
        ("thumb_url", ofOption (thumbnail embedOptions));
        ("image_url", ofOption (image embedOptions));
        ("ts", VNumber (dateNow env / 1000)) ].
Proof.
  unfold embedAttachment. rewrite getProp_filter_defined.
  - by destruct (fields embedOptions) as [[|f fs]|].
  - cbn [fmap list_fmap fst]. refine (bool_decide_unpack _ _). vm_compute. exact I.
Qed.

(** X26.  [sendEmbed] posts one attachment in which no property is
    [undefined]: its color is the one computed from the embed, its [ts] the
    current time in seconds, the title, text and link are those of the embed
    when given, and [fields] appears only for a non-empty list of fields,
    each turned into [{title, value, short}] with [short] defaulting to
    [false]. *)
Theorem sendEmbed_attachment env this embedOptions :
  let posted := attachmentWithDefaults env this (embedAttachment env this embedOptions) in
  sendEmbed env this embedOptions
  = send env this (Object [("attachments", VArray [VObject posted])]) None
  ∧ getProp "color" posted = VString (colorHex this embedOptions)
  ∧ getProp "ts" posted = VNumber (dateNow env / 1000)
  ∧ getProp "title" posted = ofOption (title embedOptions)
  ∧ getProp "text" posted = ofOption (description embedOptions)
  ∧ getProp "title_link" posted = ofOption (url embedOptions)
  ∧ getProp "fields" posted
    = match fields embedOptions with
      | Some (f :: fs) =>
          VArray ((λ f, VObject [ ("title", VString (fieldName f));
                                  ("value", VString (fieldValue f));
                                  ("short", VBool (default false (fieldInline f))) ])
                    <$> f :: fs)
      | _ => VUndefined
      end.
Proof.
  intros posted.
  destruct (embedAttachment_object env this embedOptions) as [Hnodup _].
  split; [done|].
  assert (∀ k, k ∈ ["color"; "ts"; "title"; "text"; "title_link"; "fields"] →
            getProp k posted
            = getProp k
                [ ("color", VString (colorHex this embedOptions));
                  ("title", ofOption (title embedOptions));
                  ("title_link", ofOption (url embedOptions));
                  ("text", ofOption (description embedOptions));
                  ("fields",
                   match fields embedOptions with
                   | Some (f :: fs) =>
                       VArray ((λ f, VObject [ ("title", VString (fieldName f));
                                               ("value", VString (fieldValue f));
                                               ("short", VBool (default false (fieldInline f))) ])
                                 <$> f :: fs)
                   | _ => VUndefined
                   end);
                  ("footer", ofOption (fst <$> footer embedOptions));
                  ("footer_icon", ofOption (footer embedOptions ≫= snd));
                  ("author_name", ofOption ((λ a, a.1.1) <$> author embedOptions));
                  ("author_link", ofOption (author embedOptions ≫= (λ a, a.1.2)));
                  ("author_icon", ofOption (author embedOptions ≫= snd));
                  ("thumb_url", ofOption (thumbnail embedOptions));
                  ("image_url", ofOption (image embedOptions));
                  ("ts", VNumber (dateNow env / 1000)) ]) as Hget.
  { intros k Hk. unfold posted. rewrite getProp_attachmentWithDefaults by done.
    rewrite <- getProp_embedAttachment.
    destruct (decide (k ∈ (embedAttachment env this embedOptions).*1)) as [Hin|Hout]; [done|].
    rewrite (getProp_absent k _ Hout).
    assert (k ≠ "color" ∧ k ≠ "ts") as [Hcolor Hts].
    { split; intros ->; apply Hout; apply list_elem_of_fmap.
      - exists ("color", VString (colorHex this embedOptions)). split; [done|].
        unfold embedAttachment. apply list_elem_of_filter. split; [done|]. by left.
      - exists ("ts", VNumber (dateNow env / 1000)). split; [done|].
        unfold embedAttachment. apply list_elem_of_filter. split; [done|].
        do 12 right. by left. }
    destruct (String.eqb_spec k "color"); [done|].
    by destruct (String.eqb_spec k "ts"). }
  repeat split; (rewrite Hget; [done|]); set_solver.
Qed.

End SlackAttachments.

(** * Invariants of the group *)

Section GroupInvariants.
Implicit Types (this : BroadcastGroup) (P : ClientEntry → Prop).

Lemma lowerChar_idempotent c : JsString.lowerChar (JsString.lowerChar c) = JsString.lowerChar c.
Proof. destruct c as [[] [] [] [] [] [] [] []]; reflexivity. Qed.

Lemma toLowerCase_idempotent s :
  JsString.toLowerCase (JsString.toLowerCase s) = JsString.toLowerCase s.
Proof.
  induction s as [|c s IH]; [done|]. simpl. by rewrite lowerChar_idempotent, IH.
Qed.

Lemma addClient_keeps_entries P this v a r this' :
  (∀ this0 c a0, P (entryFor this0 c a0)) →
  Forall P (clients this) → addClient v a this = (r, this') → Forall P (clients this').
Proof.
  intros Hnew Hinv Hadd. destruct (callableSend v) as [c|] eqn:Hc.
  - rewrite (addClient_accepts _ _ _ _ Hc) in Hadd. injection Hadd as _ <-.
    apply Forall_app. split; [done|]. constructor; [apply Hnew|constructor].
  - rewrite (addClient_rejects _ _ _ Hc) in Hadd. by injection Hadd as _ <-.
Qed.

Lemma removeClient_keeps_entries P this a r this' :
  Forall P (clients this) → removeClient a this = (r, this') → Forall P (clients this').
Proof.
  intros Hinv. rewrite removeClient_unfold. cbv zeta.
  destruct (0 <=? _)%Z; intros [= _ <-]; [|done]. simpl.
  rewrite delete_take_drop. apply Forall_app. split.
  - by apply Forall_take.
  - by apply Forall_drop.
Qed.

Lemma forEach_addClient_keeps_entries P initial this r this' :
  (∀ this0 c a0, P (entryFor this0 c a0)) →
  Forall P (clients this) →
  forEach (λ c, addClient c None) initial this = (r, this') → Forall P (clients this').
Proof.
  intros Hnew. revert this. induction initial as [|v initial IH]; intros this Hinv; simpl.
  - by intros [= _ <-].
  - unfold mbind, Method_bind.
    destruct (addClient v None this) as [[[]|err] this1] eqn:Hadd.
    + apply IH. by eapply addClient_keeps_entries.
    + intros [= _ <-]. by eapply addClient_keeps_entries.
Qed.

(** Whatever holds of every entry [addClient] creates holds of every
    entry of every group a program can hold. *)
Lemma reachable_entries P this :
  (∀ this0 c a0, P (entryFor this0 c a0)) → reachable this → Forall P (clients this).
Proof.
  intros Hnew. induction 1 as [groupName initial this Hnew' | this v a r this' _ IH Hadd
                               | this a r this' _ IH Hrem].
  - unfold newBroadcastGroup in Hnew'.
    destruct (forEach _ initial _) as [[[]|err] this0] eqn:Hfold; [|done].
    injection Hnew' as <-.
    eapply forEach_addClient_keeps_entries; [exact Hnew| |exact Hfold]. constructor.
  - by eapply addClient_keeps_entries.
  - by eapply removeClient_keeps_entries.
Qed.

End GroupInvariants.

(** X27.  In every group built through the constructor, [addClient] and
    [removeClient], the platform label of an entry is the one derived from
    its own client's class name, and it contains no upper-case ASCII letter
    (lowercasing it again changes nothing). *)
Theorem registry_platform_labels this e :
  reachable this → e ∈ clients this →
  platform e = platformOf (client e)
  ∧ JsString.toLowerCase (platform e) = platform e.
Proof.
  intros Hreach He.
  assert (Forall (λ e, platform e = platformOf (client e)
                       ∧ JsString.toLowerCase (platform e) = platform e) (clients this))
    as Hall.
  { apply reachable_entries; [|done]. intros this0 c a0. split; [done|].
    simpl. unfold platformOf. apply toLowerCase_idempotent. }
  rewrite Forall_forall in Hall. by apply Hall.
Qed.

(** The second entry of "alerts". *)
Lemma registry_platform_labels_witness :
  platformOf Scenario.slack = "slack"
  ∧ JsString.toLowerCase "slack" = "slack".
Proof.
  destruct (registry_platform_labels Scenario.alerts
              {| client := Scenario.slack; alias := "client_2"; platform := "slack" |}
              scenario_alerts_reachable ltac:(right; left)) as [Hlabel Hlower].
  split; [symmetry; exact Hlabel|exact Hlower].
Defined.

(** X28.  None of the dispatch methods, nor any severity shortcut, ever
    returns a promise that rejects; a summary, when one comes, carries the
    group's name and the number of registered clients. *)
Theorem dispatch_never_rejects this message options embed (heading body : string) order :
  (∀ reason, promise (broadcast message options order this) ≠ Rejected reason)
  ∧ (∀ reason, promise (broadcastEmbed embed order this) ≠ Rejected reason)
  ∧ (∀ reason, promise (testConnections order this) ≠ Rejected reason)
  ∧ (∀ reason, promise (broadcastSuccess heading body order this) ≠ Rejected reason)
  ∧ (∀ reason, promise (broadcastError heading body order this) ≠ Rejected reason)
  ∧ (∀ reason, promise (broadcastWarning heading body order this) ≠ Rejected reason)
  ∧ (∀ reason, promise (broadcastInfo heading body order this) ≠ Rejected reason)
  ∧ (∀ summary,
       promise (broadcastEmbed embed order this) = Fulfilled summary →
       groupName summary = name this ∧ totalClients summary = size_ this).
Proof.
  do 7 (split; [intros reason; apply await_allSettled_never_rejects|]).
  intros summary Hsummary. by apply broadcastEmbed_fulfilled in Hsummary as ->.
Qed.

(** The colors of the source's documentation. *)
Example colorHex_examples :
  Slack.toString16 0x36a64f = "36a64f"
  ∧ Slack.padStart0 6 (Slack.toString16 255) = "0000ff"
  ∧ Slack.padStart0 6 (Slack.toString16 0x1000000) = "1000000".
Proof. by repeat split. Qed.
